(** * webrtc-poc: paced line streaming and its signaling endpoint

    A shallow embedding of the protocol core of the repository:

    - [StreamFile] (internal/server/server.go): reads a file with a
      [bufio.Scanner] and pushes each line to a [LineWriter];
    - [ProcessLines] (internal/client): the event loop that consumes the two
      channels of a [LineReceiver] and writes every line to a sink;
    - the [/offer] handler and the shutdown sequence of [runServer]
      (cmd/webrtc-poc/main.go).

    Go strings are byte sequences and are modelled by [string]; the file
    system is a finite map from paths to nodes; effects (writer state, log
    records, sleeps, sink contents) are threaded explicitly. Line counters
    are natural numbers: a Go [int] does not overflow on them, a count being
    bounded by the bytes of a file or by the cases a [select] has taken.
    [bufio], [os], [net/http] and the peer connection are Go libraries, not
    code of the repository; they are modelled after their documentation as
    far as the source depends on them. *)

From Stdlib Require Import ZArith Lia Ascii String List.
From stdpp Require Import base option gmap strings list.
From Equations Require Import Equations.
Import ListNotations.

Local Open Scope nat_scope.
Set Warnings "-clear-no-such-hyp".

(** ** Bytes and strings *)

Definition LF : ascii := Ascii.ascii_of_nat 10.
Definition CR : ascii := Ascii.ascii_of_nat 13.

(** [line + "\n"] *)
Definition newline : string := String LF EmptyString.

Definition is_LF (c : ascii) : bool := Ascii.eqb c LF.
Definition is_CR (c : ascii) : bool := Ascii.eqb c CR.

(** ** Go errors

    An [error] value is compared by identity in the source ([err == io.EOF]);
    the sentinels of the standard library are constructors of their own, so
    that [errors.New("EOF")] is different from [io.EOF]. *)

Inductive errno := ENOENT | EISDIR | EACCES | ENOSPC | EIO.

Inductive error :=
| io_EOF
| bufio_ErrTooLong
| os_ErrInvalid
| PathError (op path : string) (e : errno)
| errors_New (msg : string).

Definition errno_string (e : errno) : string :=
  match e with
  | ENOENT => "no such file or directory"
  | EISDIR => "is a directory"
  | EACCES => "permission denied"
  | ENOSPC => "no space left on device"
  | EIO => "input/output error"
  end.

(** [err.Error()] *)
Definition Error (e : error) : string :=
  match e with
  | io_EOF => "EOF"
  | bufio_ErrTooLong => "bufio.Scanner: token too long"
  | os_ErrInvalid => "invalid argument"
  | PathError op path e => op +:+ " " +:+ path +:+ ": " +:+ errno_string e
  | errors_New msg => msg
  end.

(** [err == io.EOF] *)
Definition is_EOF (e : error) : bool :=
  match e with io_EOF => true | _ => false end.

(** ** The file system *)

Inductive node :=
| RegularFile (writable : bool) (content : string)
| Directory.

(** An open file: the bytes not yet read, and the error its [Read] reports
    once they are exhausted ([None] stands for [io.EOF]). Opening a directory
    succeeds in Go; reading from it fails. *)
Record File := mkFile {
  f_name : string;
  f_unread : string;
  f_fail : option error
}.

(** [os.Open] *)
Definition os_Open (fs : gmap string node) (name : string) : error + File :=
  match fs !! name with
  | None => inl (PathError "open" name ENOENT)
  | Some (RegularFile _ content) => inr (mkFile name content None)
  | Some Directory => inr (mkFile name "" (Some (PathError "read" name EISDIR)))
  end.

(** [os.Create]: create or truncate. *)
Definition os_Create (fs : gmap string node) (name : string)
  : error + gmap string node :=
  match fs !! name with
  | Some Directory => inl (PathError "open" name EISDIR)
  | Some (RegularFile false _) => inl (PathError "open" name EACCES)
  | Some (RegularFile true _) | None => inr (<[name := RegularFile true ""]> fs)
  end.

(** ** bufio.Scanner with the default split function [ScanLines] *)

Module bufio.

(** [MaxScanTokenSize = 64 * 1024] *)
Definition MaxScanTokenSize : nat := 64 * 1024.

(** [dropCR]: drops one terminal carriage return. *)
Fixpoint dropCR (data : string) : string :=
  match data with
  | EmptyString => EmptyString
  | String c EmptyString => if is_CR c then EmptyString else data
  | String c rest => String c (dropCR rest)
  end.

(** [bytes.IndexByte(data, '\n')] over the first [window] bytes, returning
    the bytes before the newline and those after it. *)
Fixpoint IndexByte (window : nat) (data : string) : option (string * string) :=
  match window, data with
  | S window', String c rest =>
      if is_LF c then Some (EmptyString, rest)
      else match IndexByte window' rest with
           | Some (line, rest') => Some (String c line, rest')
           | None => None
           end
  | _, _ => None
  end.

(** The scanner's buffer is not modelled byte for byte: [sc_unread] is what
    the scanner holds and what its reader still has to deliver; the buffer
    never grows beyond [maxTokenSize] bytes. *)
Record Scanner := mkScanner {
  sc_unread : string;
  sc_fail : option error;
  maxTokenSize : nat;
  sc_token : string;
  sc_err : option error
}.

Definition NewScanner (f : File) : Scanner :=
  mkScanner (f_unread f) (f_fail f) MaxScanTokenSize EmptyString None.

(** [Scan]: the next token, if there is one. A newline within the buffer
    ends a token; a full buffer without a newline is [ErrTooLong]; when the
    reader is exhausted first, what remains is the final token. *)
Definition Scan (s : Scanner) : bool * Scanner :=
  match IndexByte (maxTokenSize s) (sc_unread s) with
  | Some (line, rest) =>
      (true, mkScanner rest (sc_fail s) (maxTokenSize s) (dropCR line) (sc_err s))
  | None =>
      if maxTokenSize s <=? String.length (sc_unread s) then
        (false, mkScanner (sc_unread s) (sc_fail s) (maxTokenSize s) EmptyString
                  (Some bufio_ErrTooLong))
      else
        let e := default io_EOF (sc_fail s) in
        match sc_unread s with
        | EmptyString =>
            (false, mkScanner EmptyString (sc_fail s) (maxTokenSize s)
                      EmptyString (Some e))
        | data =>
            (true, mkScanner EmptyString (sc_fail s) (maxTokenSize s)
                     (dropCR data) (Some e))
        end
  end.

(** [Text] *)
Definition Text (s : Scanner) : string := sc_token s.

(** [Err]: the first error that is not [io.EOF]. *)
Definition Err (s : Scanner) : option error :=
  match sc_err s with
  | Some e => if is_EOF e then None else Some e
  | None => None
  end.

End bufio.

(** ** int64 durations *)

Definition wrap64 (z : Z) : Z :=
  ((z + 2 ^ 63) mod 2 ^ 64 - 2 ^ 63)%Z.

(** [time.Duration(delayMs) * time.Millisecond], in nanoseconds. *)
Definition Duration_of_ms (delayMs : Z) : Z := wrap64 (delayMs * 1000000).

(** ** Observable effects of the streaming side *)

Inductive level := INFO | ERROR | DEBUG.

(** The records [StreamFile] hands to the logger, one constructor per format
    string of the source. *)
Inductive message :=
| RecoveredFromPanic (r : string)
| FailedToOpenFile (e : error)
| FailedToSendLine (lineCount : nat) (e : error)
| SentLine (lineCount : nat) (line : string)
| ErrorReadingFile (e : error)
| FinishedStreaming (lineCount : nat).

Inductive effect :=
| Log (lv : level) (m : message)
| Sleep (d : Z).

(** ** LineWriter *)

(** What a call of [SendText] can do: return nil, return an error, or panic
    (a send on a closed channel does). *)
Inductive send_outcome :=
| SendOk
| SendErr (e : error)
| SendPanic (r : string).

Class LineWriter (W : Type) := SendText : string -> W -> send_outcome * W.

(** [MockLineWriter] of server_test.go *)
Record MockLineWriter := mkMockLineWriter {
  Lines : list string;
  MockErr : option error
}.

#[global] Instance MockLineWriter_LineWriter : LineWriter MockLineWriter :=
  fun text m =>
    match MockErr m with
    | Some e => (SendErr e, m)
    | None => (SendOk, mkMockLineWriter (Lines m ++ [text]) (MockErr m))
    end.

(** [channelWriter] of the transfer test: the lines put on [linesChan], and
    whether the channel has been closed. *)
Record channelWriter := mkChannelWriter {
  linesChan : list string;
  chanClosed : bool
}.

#[global] Instance channelWriter_LineWriter : LineWriter channelWriter :=
  fun text w =>
    if chanClosed w then (SendPanic "send on closed channel", w)
    else (SendOk, mkChannelWriter (linesChan w ++ [text]) false).

(** ** StreamFile *)

(** How a function body ends: it returns, or it is unwinding a panic. *)
Inductive completion :=
| Returns (err : option error)
| Panics (r : string).

Record StreamRun (W : Type) := mkRun {
  run_end : completion;
  run_writer : W;
  run_effects : list effect
}.
Arguments mkRun {W}.
Arguments run_end {W}.
Arguments run_writer {W}.
Arguments run_effects {W}.

Definition inspect {A} (a : A) : {b | a = b} := exist _ a eq_refl.

Lemma IndexByte_shorter window data line rest :
  bufio.IndexByte window data = Some (line, rest) ->
  String.length rest < String.length data.
Proof.
  revert data line rest.
  induction window as [|n IH]; intros [|c data] line rest; simpl; try discriminate.
  destruct (is_LF c).
  - intros [= _ <-]. lia.
  - destruct (bufio.IndexByte n data) as [[l r]|] eqn:E; try discriminate.
    intros [= _ <-]. apply IH in E. lia.
Qed.

(** Every token [Scan] delivers consumes input. *)
Lemma Scan_shorter s s' :
  bufio.Scan s = (true, s') ->
  String.length (bufio.sc_unread s') < String.length (bufio.sc_unread s).
Proof.
  unfold bufio.Scan.
  destruct (bufio.IndexByte _ _) as [[l r]|] eqn:E.
  - intros [= <-]. simpl. eapply IndexByte_shorter; eauto.
  - destruct (_ <=? _); try discriminate.
    destruct (bufio.sc_unread s); try discriminate.
    intros [= <-]. simpl. lia.
Qed.

Section StreamFile.
Context {W : Type} `{LineWriter W}.

(** The [for scanner.Scan()] loop with what follows it. *)
Equations? scan_loop (delayMs : Z) (scanner : bufio.Scanner)
    (lineCount : nat) (writer : W) (fx : list effect) : StreamRun W
    by wf (String.length (bufio.sc_unread scanner)) lt :=
  scan_loop delayMs scanner lineCount writer fx with inspect (bufio.Scan scanner) => {
    | exist _ (true, scanner') _ with SendText (bufio.Text scanner') writer => {
        | (SendErr e, writer') =>
            mkRun (Returns (Some e)) writer'
              (fx ++ [Log ERROR (FailedToSendLine (S lineCount) e)])
        | (SendPanic r, writer') =>
            mkRun (Panics r) writer' fx
        | (SendOk, writer') =>
            scan_loop delayMs scanner' (S lineCount) writer'
              (fx ++ [Log DEBUG (SentLine (S lineCount) (bufio.Text scanner'));
                      Sleep (Duration_of_ms delayMs)]) }
    | exist _ (false, scanner') _ with bufio.Err scanner' => {
        | Some e =>
            mkRun (Returns (Some e)) writer (fx ++ [Log ERROR (ErrorReadingFile e)])
        | None =>
            mkRun (Returns None) writer (fx ++ [Log INFO (FinishedStreaming lineCount)]) } }.
Proof. apply Scan_shorter. assumption. Qed.

(** The body of [StreamFile], before its deferred function runs. *)
Definition StreamFile_body (fs : gmap string node) (writer : W)
    (filename : string) (delayMs : Z) : StreamRun W :=
  match os_Open fs filename with
  | inl err => mkRun (Returns (Some err)) writer [Log ERROR (FailedToOpenFile err)]
  | inr file => scan_loop delayMs (bufio.NewScanner file) 0 writer []
  end.

(** [StreamFile]: the deferred function recovers a panic and logs it; the
    result of the function is unnamed, so a recovered run returns the zero
    value of [error], nil. *)
Definition StreamFile (fs : gmap string node) (writer : W)
    (filename : string) (delayMs : Z) : StreamRun W :=
  let run := StreamFile_body fs writer filename delayMs in
  match run_end run with
  | Returns err => run
  | Panics r =>
      mkRun (Returns None) (run_writer run)
        (run_effects run ++ [Log ERROR (RecoveredFromPanic r)])
  end.

End StreamFile.

(** ** LineReceiver *)

(** [ReceiveLines] hands out a line channel and an error channel. What
    [ProcessLines] sees of them is the case its [select] takes, time after
    time: a line, the line channel found closed, an error value (possibly
    nil), or the error channel found closed. *)
Inductive select_case :=
| RecvLine (line : string)
| LineChanClosed
| RecvErr (err : option error)
| ErrChanClosed.

Class LineReceiver (R : Type) := ReceiveLines : R -> list select_case.

(** [channelLineReceiver]: an adapter around two given channels. *)
Record channelLineReceiver := mkChannelLineReceiver {
  recv_cases : list select_case
}.

#[global] Instance channelLineReceiver_LineReceiver : LineReceiver channelLineReceiver :=
  recv_cases.

(** [MockLineReceiver] of client_test.go. Its goroutine sends every line,
    then the error if there is one, then closes the error channel and then
    the line channel. [mock_polls] and [mock_close_first] are the
    scheduler's part: how often the closed error channel is selected before
    the closed line channel is, and whether the closed line channel is
    selected before a pending error. *)
Record MockLineReceiver := mkMockLineReceiver {
  MockLines : list string;
  MockRecvErr : option error;
  mock_polls : nat;
  mock_close_first : bool
}.

#[global] Instance MockLineReceiver_LineReceiver : LineReceiver MockLineReceiver :=
  fun m =>
    map RecvLine (MockLines m) ++
    match MockRecvErr m with
    | Some e => if mock_close_first m then [LineChanClosed] else [RecvErr (Some e)]
    | None => repeat ErrChanClosed (mock_polls m) ++ [LineChanClosed]
    end.

(** ** The receiving side's world *)

(** The file system, and the bytes the sink itself has put on standard
    output. The logger writes to standard output too ([Info] and [Debug]) and
    to standard error ([Error]); its records are not part of [w_stdout]: a
    run tells in [pr_trace] what it wrote to the two streams, sink and
    logger, in order. *)
Record World := mkWorld {
  w_fs : gmap string node;
  w_stdout : string
}.

(** What the environment decides: whether the write of the k-th line fails
    (after how many bytes, and with which error), and what the clock shows
    after the n-th case of the [select]. *)
Record Env := mkEnv {
  write_fault : nat -> option (nat * error);
  clock : nat -> Z
}.

(** [time.Since(startTime)] after [n] cases. *)
Definition since (env : Env) (n : nat) : Z := (clock env n - clock env 0)%Z.

Fixpoint take_bytes (n : nat) (data : string) : string :=
  match n, data with
  | S n', String c rest => String c (take_bytes n' rest)
  | _, _ => EmptyString
  end.

Definition append_file (name data : string) (w : World) : World :=
  match w_fs w !! name with
  | Some (RegularFile wr content) =>
      mkWorld (<[name := RegularFile wr (content +:+ data)]> (w_fs w)) (w_stdout w)
  | _ => w
  end.

(** What the write of the k-th line puts of [data] into the sink: all of it,
    or the part a failing write leaves. *)
Definition kept (env : Env) (k : nat) (data : string) : string :=
  match write_fault env k with
  | None => data
  | Some (n, _) => take_bytes n data
  end.

(** [outputFile.WriteString(data)] for the k-th line: all of [data], or a
    part of it and an error. *)
Definition File_WriteString (env : Env) (k : nat) (name data : string)
    (w : World) : World * option error :=
  match write_fault env k with
  | None => (append_file name data w, None)
  | Some (n, err) => (append_file name (take_bytes n data) w, Some err)
  end.

(** [os.Stdout.WriteString(data)] for the k-th line. The write can fail like
    any other; the source drops its result, so only what it wrote is left. *)
Definition Stdout_WriteString (env : Env) (k : nat) (data : string) (w : World)
  : World :=
  mkWorld (w_fs w) (w_stdout w +:+ kept env k data).

(** ** What the receiving side writes to standard output and standard error *)

(** The records the receiving side hands to the logger, one constructor per
    format string. [ReceivedLines] carries the count and the elapsed time; the
    rate the format prints is computed from the two. *)
Inductive client_message :=
| FailedToCreateOutputFile (e : error)
| WritingOutputToFile (output : string)
| WritingOutputToStdout
| ReceivedLine (lineCount : nat) (line : string)
| FailedToWriteOutputFile (e : error)
| ReceivedLines (lineCount : nat) (elapsed : Z)
| ErrorReceivingLine (e : option error).

(** One write of a run to the two streams: the bytes a write of the sink put
    on standard output, or a call of the logger ([Info] and [Debug] print to
    standard output, [Error] to standard error). *)
Inductive output_event :=
| Printed (data : string)
| Logged (lv : level) (m : client_message).

(** ** ProcessLines *)

Inductive outcome :=
| Done (lineCount : nat) (elapsed : Z) (err : option error)
| Waiting (lineCount : nat).

Record ProcessRun := mkProcessRun {
  pr_outcome : outcome;
  pr_world : World;
  pr_trace : list output_event
}.

(** The [for { select { ... } }] loop. [outputFile] is [None] for the nil
    file; [tr] is what the run has written to the two streams so far. When
    neither channel will ever fire again the loop waits for ever. *)
Fixpoint process_loop (env : Env) (outputFile : option string)
    (cases : list select_case) (lineCount n : nat) (w : World)
    (tr : list output_event) : ProcessRun :=
  match cases with
  | [] => mkProcessRun (Waiting lineCount) w tr
  | RecvLine line :: cases' =>
      let lineCount := S lineCount in
      match outputFile with
      | Some name =>
          match File_WriteString env lineCount name (line +:+ newline) w with
          | (w', Some err) =>
              mkProcessRun (Done lineCount (since env (S n)) (Some err)) w'
                (tr ++ [Logged ERROR (FailedToWriteOutputFile err)])
          | (w', None) =>
              process_loop env outputFile cases' lineCount (S n) w'
                (tr ++ [Logged DEBUG (ReceivedLine lineCount line)])
          end
      | None =>
          process_loop env outputFile cases' lineCount (S n)
            (Stdout_WriteString env lineCount (line +:+ newline) w)
            (tr ++ [Printed (kept env lineCount (line +:+ newline));
                    Logged DEBUG (ReceivedLine lineCount line)])
      end
  | LineChanClosed :: _ =>
      mkProcessRun (Done lineCount (since env (S n)) None) w
        (tr ++ [Logged INFO (ReceivedLines lineCount (since env (S n)))])
  | ErrChanClosed :: cases' =>
      process_loop env outputFile cases' lineCount (S n) w tr
  | RecvErr err :: _ =>
      match err with
      | Some io_EOF =>
          mkProcessRun (Done lineCount (since env (S n)) None) w
            (tr ++ [Logged INFO (ReceivedLines lineCount (since env (S n)))])
      | _ =>
          mkProcessRun (Done lineCount (since env (S n)) err) w
            (tr ++ [Logged ERROR (ErrorReceivingLine err)])
      end
  end.

Definition ProcessLines {R} `{LineReceiver R} (env : Env) (receiver : R)
    (output : string) (w : World) : ProcessRun :=
  if String.eqb output "" then
    process_loop env None (ReceiveLines receiver) 0 0 w
      [Logged INFO WritingOutputToStdout]
  else
    match os_Create (w_fs w) output with
    | inl err =>
        mkProcessRun (Done 0 0 (Some err)) w
          [Logged ERROR (FailedToCreateOutputFile err)]
    | inr fs' =>
        process_loop env (Some output) (ReceiveLines receiver) 0 0
          (mkWorld fs' (w_stdout w))
          [Logged INFO (WritingOutputToFile output)]
    end.

(** ** The [/offer] handler of runServer *)

Module http.

Definition StatusOK : nat := 200.
Definition StatusBadRequest : nat := 400.
Definition StatusMethodNotAllowed : nat := 405.
Definition StatusInternalServerError : nat := 500.

Definition MethodPost : string := "POST".

(** A request as the handler reads it: its method, and what
    [io.ReadAll(r.Body)] gives. *)
Record Request := mkRequest {
  Method : string;
  Body : error + string
}.

Record Response := mkResponse {
  StatusCode : nat;
  ContentType : string;
  ResponseBody : string
}.

(** [http.Error(w, msg, code)] *)
Definition Error (msg : string) (code : nat) : Response :=
  mkResponse code "text/plain; charset=utf-8" (msg +:+ newline).

End http.

Inductive SDPType := SDPTypeOffer | SDPTypePranswer | SDPTypeAnswer | SDPTypeRollback.

Record SessionDescription := mkSessionDescription {
  sd_Type : SDPType;
  sd_SDP : string
}.

(** The transport capability behind the handler: what each call of the JSON
    codec and of the peer connection answers for this request. The handler
    only branches on these results. [GatheringComplete] tells whether the
    gathering promise is ever fulfilled. *)
Record Transport := mkTransport {
  json_Unmarshal : string -> error + SessionDescription;
  NewPeerConnection : option error;
  SetRemoteDescription : SessionDescription -> option error;
  CreateDataChannel : option error;
  CreateAnswer : error + SessionDescription;
  SetLocalDescription : SessionDescription -> option error;
  GatheringComplete : bool;
  LocalDescription : SessionDescription;
  json_Encode : SessionDescription -> error + string
}.

(** What a call of the handler leaves behind: the response, if the handler
    returns at all, and whether it registered the [OnOpen] callback that
    starts a streaming session. *)
Record Handled := mkHandled {
  h_response : option http.Response;
  h_registered : bool
}.

Definition offer_handler (t : Transport) (r : http.Request) : Handled :=
  if negb (String.eqb (http.Method r) http.MethodPost) then
    mkHandled (Some (http.Error "Method not allowed" http.StatusMethodNotAllowed)) false
  else
  match http.Body r with
  | inl err =>
      mkHandled (Some (http.Error ("Failed to read offer: " +:+ Error err)
                         http.StatusBadRequest)) false
  | inr offerBytes =>
  match json_Unmarshal t offerBytes with
  | inl err =>
      mkHandled (Some (http.Error ("Failed to parse offer: " +:+ Error err)
                         http.StatusBadRequest)) false
  | inr offer =>
  match NewPeerConnection t with
  | Some err =>
      mkHandled (Some (http.Error ("Failed to create peer connection: " +:+ Error err)
                         http.StatusInternalServerError)) false
  | None =>
  match SetRemoteDescription t offer with
  | Some err =>
      mkHandled (Some (http.Error ("Failed to set remote description: " +:+ Error err)
                         http.StatusInternalServerError)) false
  | None =>
  match CreateDataChannel t with
  | Some err =>
      mkHandled (Some (http.Error ("Failed to create data channel: " +:+ Error err)
                         http.StatusInternalServerError)) false
  | None =>
  match CreateAnswer t with
  | inl err =>
      mkHandled (Some (http.Error ("Failed to create answer: " +:+ Error err)
                         http.StatusInternalServerError)) true
  | inr answer =>
  match SetLocalDescription t answer with
  | Some err =>
      mkHandled (Some (http.Error ("Failed to set local description: " +:+ Error err)
                         http.StatusInternalServerError)) true
  | None =>
      if GatheringComplete t then
        match json_Encode t (LocalDescription t) with
        | inr body =>
            mkHandled (Some (http.mkResponse http.StatusOK "application/json"
                               (body +:+ newline))) true
        | inl _ =>
            mkHandled (Some (http.mkResponse http.StatusOK "application/json" "")) true
        end
      else mkHandled None true
  end end end end end end end.

(** ** Shutdown of runServer

    The goroutines of the server, interleaved statement by statement. The
    main goroutine stands at one of the last statements of runServer; the
    goroutine of [ListenAndServe], the handlers, the [OnOpen] callbacks and
    the streaming goroutines run beside it. [ListenAndServe] may fail to
    bind the address: the error is logged and the main goroutine waits for
    the signal all the same. A handler runs from the moment its request is
    taken until it returns; [server.Close] closes the listener and the
    connections but does not stop a handler that is running. Sessions are
    numbered in the order in which their data channels are created. *)

Inductive main_pc :=
| AwaitSignal      (* <-shutdown *)
| ClosingServer    (* server.Close() *)
| WaitingGroup     (* wg.Wait() *)
| Returning        (* the wait has returned; runServer logs and returns *)
| Exited.          (* the process is gone *)

Record Server := mkServer {
  pc : main_pc;
  listening : bool;          (* the HTTP listener takes requests *)
  served : bool;             (* ListenAndServe has bound or failed, or the server is closed *)
  signalled : bool;          (* a signal sits in the shutdown channel *)
  accepted : nat;            (* handlers that have not reached CreateDataChannel yet *)
  next_session : nat;
  negotiated : gset nat;     (* data channels created, not yet open *)
  streaming : gset nat;      (* goroutines inside streamFile *)
  finished : gset nat;       (* goroutines that have returned *)
  killed : gset nat;         (* goroutines the exit of the process cut off *)
  wg : nat                   (* the counter of the wait group *)
}.

Definition boot : Server := mkServer AwaitSignal false false false 0 0 ∅ ∅ ∅ ∅ 0.

Inductive action :=
| Listen             (* ListenAndServe binds the address and serves *)
| ListenFail         (* ListenAndServe returns an error, which is logged *)
| Accept             (* a request to /offer is taken: its handler starts *)
| Offer              (* a running handler passes CreateDataChannel and registers OnOpen *)
| Refuse             (* a running handler returns before CreateDataChannel *)
| Open (i : nat)     (* OnOpen of channel i: wg.Add(1); go func() { ... } *)
| Finish (i : nat)   (* streamFile of session i returns: dataChannel.Close(), wg.Done() *)
| Signal             (* the OS delivers SIGINT or SIGTERM *)
| Receive            (* <-shutdown *)
| CloseServer        (* server.Close() *)
| Wait               (* wg.Wait() returns *)
| Exit.              (* runServer returns and the process exits *)

Definition alive (s : Server) : bool :=
  match pc s with Exited => false | _ => true end.

(** One action, if it can happen in [s]. *)
Definition step (a : action) (s : Server) : option Server :=
  if negb (alive s) then None else
  match a with
  | Listen =>
      if served s then None else
        Some (mkServer (pc s) true true (signalled s) (accepted s) (next_session s)
                (negotiated s) (streaming s) (finished s) (killed s) (wg s))
  | ListenFail =>
      if served s then None else
        Some (mkServer (pc s) false true (signalled s) (accepted s) (next_session s)
                (negotiated s) (streaming s) (finished s) (killed s) (wg s))
  | Accept =>
      if listening s then
        Some (mkServer (pc s) (listening s) (served s) (signalled s) (S (accepted s))
                (next_session s) (negotiated s) (streaming s) (finished s) (killed s)
                (wg s))
      else None
  | Offer =>
      match accepted s with
      | S running =>
          Some (mkServer (pc s) (listening s) (served s) (signalled s) running
                  (S (next_session s)) ({[ next_session s ]} ∪ negotiated s)
                  (streaming s) (finished s) (killed s) (wg s))
      | 0 => None
      end
  | Refuse =>
      match accepted s with
      | S running =>
          Some (mkServer (pc s) (listening s) (served s) (signalled s) running
                  (next_session s) (negotiated s) (streaming s) (finished s) (killed s)
                  (wg s))
      | 0 => None
      end
  | Open i =>
      if decide (i ∈ negotiated s) then
        Some (mkServer (pc s) (listening s) (served s) (signalled s) (accepted s)
                (next_session s) (negotiated s ∖ {[ i ]}) ({[ i ]} ∪ streaming s)
                (finished s) (killed s) (S (wg s)))
      else None
  | Finish i =>
      if decide (i ∈ streaming s) then
        Some (mkServer (pc s) (listening s) (served s) (signalled s) (accepted s)
                (next_session s) (negotiated s) (streaming s ∖ {[ i ]})
                ({[ i ]} ∪ finished s) (killed s) (pred (wg s)))
      else None
  | Signal =>
      Some (mkServer (pc s) (listening s) (served s) true (accepted s) (next_session s)
              (negotiated s) (streaming s) (finished s) (killed s) (wg s))
  | Receive =>
      match pc s with
      | AwaitSignal =>
          if signalled s then
            Some (mkServer ClosingServer (listening s) (served s) false (accepted s)
                    (next_session s) (negotiated s) (streaming s) (finished s) (killed s)
                    (wg s))
          else None
      | _ => None
      end
  | CloseServer =>
      match pc s with
      | ClosingServer =>
          Some (mkServer WaitingGroup false true (signalled s) (accepted s)
                  (next_session s) (negotiated s) (streaming s) (finished s) (killed s)
                  (wg s))
      | _ => None
      end
  | Wait =>
      match pc s with
      | WaitingGroup =>
          if wg s =? 0 then
            Some (mkServer Returning (listening s) (served s) (signalled s) (accepted s)
                    (next_session s) (negotiated s) (streaming s) (finished s) (killed s)
                    (wg s))
          else None
      | _ => None
      end
  | Exit =>
      match pc s with
      | Returning =>
          Some (mkServer Exited (listening s) (served s) (signalled s) (accepted s)
                  (next_session s) (negotiated s) ∅ (finished s)
                  (streaming s ∪ killed s) (wg s))
      | _ => None
      end
  end.

(** A schedule, action by action. *)
Fixpoint run (sched : list action) (s : Server) : option Server :=
  match sched with
  | [] => Some s
  | a :: sched' =>
      match step a s with
      | Some s' => run sched' s'
      | None => None
      end
  end.

(** The sessions whose goroutine was ever started. *)
Definition registered (s : Server) : gset nat := streaming s ∪ finished s ∪ killed s.

(** ** The transfer test: StreamFile into ProcessLines

    [TestSimpleFileTransfer] joins the two sides by a channel: StreamFile
    writes to [linesChan] through a [channelWriter]; once it has returned,
    its error, if any, is put on [errChan] and [linesChan] is closed;
    ProcessLines reads both through a [channelLineReceiver]. When StreamFile
    failed, both channels are ready at the end and [err_first] tells which
    case the [select] takes. The sender is only observed through what the
    receiver takes from the channel. The run is the run of ProcessLines:
    its trace is what ProcessLines writes; the records of StreamFile, which
    its goroutine prints to the same standard output in between, are the
    [run_effects] of the sender. *)
Definition transfer_cases (run : StreamRun channelWriter) (err_first : bool)
  : list select_case :=
  map RecvLine (linesChan (run_writer run)) ++
  match run_end run with
  | Returns (Some e) => if err_first then [RecvErr (Some e)] else [LineChanClosed]
  | _ => [LineChanClosed]
  end.

Definition SimpleFileTransfer (env : Env) (err_first : bool)
    (input : string) (delayMs : Z) (output : string) (w : World) : ProcessRun :=
  let run := StreamFile (w_fs w) (mkChannelWriter [] false) input delayMs in
  ProcessLines env (mkChannelLineReceiver (transfer_cases run err_first)) output w.

(** ** Vocabulary of the statements *)

(** The lines of a file in the words of the specification: a line ends at a
    newline, and a trailing part without a newline is a line too. *)
Fixpoint file_lines (content : string) : list string :=
  match content with
  | EmptyString => []
  | String c rest =>
      if is_LF c then EmptyString :: file_lines rest
      else match file_lines rest with
           | [] => [String c EmptyString]
           | l :: ls => String c l :: ls
           end
  end.

(** Each line followed by one newline. *)
Fixpoint lines_text (ls : list string) : string :=
  match ls with
  | [] => EmptyString
  | l :: ls' => l +:+ newline +:+ lines_text ls'
  end.

(** Each line followed by carriage return and newline. *)
Fixpoint crlf_text (ls : list string) : string :=
  match ls with
  | [] => EmptyString
  | l :: ls' => l +:+ String CR newline +:+ crlf_text ls'
  end.

Fixpoint has_LF (s : string) : bool :=
  match s with
  | EmptyString => false
  | String c rest => is_LF c || has_LF rest
  end.

(** The lines StreamFile reports as sent, in order. *)
Fixpoint sent_lines (fx : list effect) : list string :=
  match fx with
  | [] => []
  | Log DEBUG (SentLine _ line) :: fx' => line :: sent_lines fx'
  | _ :: fx' => sent_lines fx'
  end.

(** The calls of [time.Sleep], in order. *)
Fixpoint sleeps (fx : list effect) : list Z :=
  match fx with
  | [] => []
  | Sleep d :: fx' => d :: sleeps fx'
  | _ :: fx' => sleeps fx'
  end.

(** The writer after it has accepted each of [ls] in turn; [None] if one of
    the sends fails or panics. *)
Fixpoint deliver {W} `{LineWriter W} (ls : list string) (w : W) : option W :=
  match ls with
  | [] => Some w
  | l :: ls' =>
      match SendText l w with
      | (SendOk, w') => deliver ls' w'
      | _ => None
      end
  end.

(** The error a reader reports at its end, unless it is [io.EOF]. *)
Definition read_error (fail : option error) : option error :=
  match fail with
  | Some e => if is_EOF e then None else Some e
  | None => None
  end.

(** The streaming loop told over the lines of the unread input: the shape
    [scan_loop] is shown to have. *)
Fixpoint send_lines {W} `{LineWriter W} (delayMs : Z) (max : nat)
    (fail : option error) (ls : list string) (lineCount : nat) (writer : W)
    (fx : list effect) : StreamRun W :=
  match ls with
  | [] =>
      match read_error fail with
      | Some e => mkRun (Returns (Some e)) writer (fx ++ [Log ERROR (ErrorReadingFile e)])
      | None => mkRun (Returns None) writer (fx ++ [Log INFO (FinishedStreaming lineCount)])
      end
  | l :: ls' =>
      if max <=? String.length l then
        mkRun (Returns (Some bufio_ErrTooLong)) writer
          (fx ++ [Log ERROR (ErrorReadingFile bufio_ErrTooLong)])
      else
        match SendText (bufio.dropCR l) writer with
        | (SendErr e, writer') =>
            mkRun (Returns (Some e)) writer'
              (fx ++ [Log ERROR (FailedToSendLine (S lineCount) e)])
        | (SendPanic r, writer') => mkRun (Panics r) writer' fx
        | (SendOk, writer') =>
            send_lines delayMs max fail ls' (S lineCount) writer'
              (fx ++ [Log DEBUG (SentLine (S lineCount) (bufio.dropCR l));
                      Sleep (Duration_of_ms delayMs)])
        end
  end.

(** What the loop leaves in the log for the tokens [ts], the first of them
    being line [lineCount + 1]. *)
Fixpoint sent_effects (delayMs : Z) (lineCount : nat) (ts : list string)
  : list effect :=
  match ts with
  | [] => []
  | t :: ts' =>
      Log DEBUG (SentLine (S lineCount) t) :: Sleep (Duration_of_ms delayMs)
        :: sent_effects delayMs (S lineCount) ts'
  end.

(** A line the scanner's buffer can hold. *)
Definition fits (max : nat) (l : string) : Prop := String.length l < max.

(** The lines among the cases of a [select]. *)
Fixpoint received (cases : list select_case) : list string :=
  match cases with
  | [] => []
  | RecvLine line :: cases' => line :: received cases'
  | _ :: cases' => received cases'
  end.

(** What a run writes to the two streams for [lines], the first being line
    [lineCount + 1]: the line and its newline on standard output when that is
    the sink ([written k data] being what the k-th write puts there of
    [data]), then the record of the line. *)
Fixpoint line_events (written : nat -> string -> string) (to_stdout : bool)
    (lineCount : nat) (lines : list string) : list output_event :=
  match lines with
  | [] => []
  | line :: lines' =>
      (if to_stdout then [Printed (written (S lineCount) (line +:+ newline))] else [])
      ++ Logged DEBUG (ReceivedLine (S lineCount) line)
      :: line_events written to_stdout (S lineCount) lines'
  end.

(** A write that puts all of its data into the sink. *)
Definition whole (k : nat) (data : string) : string := data.

(** What the writes of the sink have put on standard output, in order. *)
Fixpoint printed (tr : list output_event) : list string :=
  match tr with
  | [] => []
  | Printed data :: tr' => data :: printed tr'
  | Logged _ _ :: tr' => printed tr'
  end.

(** The lines a run takes from its channels: those received before the first
    case that ends the loop. *)
Fixpoint consumed (cases : list select_case) : list string :=
  match cases with
  | RecvLine line :: cases' => line :: consumed cases'
  | ErrChanClosed :: cases' => consumed cases'
  | _ => []
  end.

(** A line boundary with a carriage return: a carriage return right before a
    newline. *)
Fixpoint CR_before_LF (s : string) : bool :=
  match s with
  | EmptyString => false
  | String c rest =>
      match rest with
      | String d _ => is_CR c && is_LF d
      | EmptyString => false
      end || CR_before_LF rest
  end.

Fixpoint ends_in_CR (l : string) : bool :=
  match l with
  | EmptyString => false
  | String c EmptyString => is_CR c
  | String _ rest => ends_in_CR rest
  end.

(** Cases that do not end the loop. *)
Definition goes_on (c : select_case) : bool :=
  match c with
  | RecvLine _ | ErrChanClosed => true
  | LineChanClosed | RecvErr _ => false
  end.

Definition outcome_count (r : ProcessRun) : nat :=
  match pr_outcome r with
  | Done lineCount _ _ | Waiting lineCount => lineCount
  end.

Definition result_of (r : ProcessRun) : option (nat * option error) :=
  match pr_outcome r with
  | Done lineCount _ err => Some (lineCount, err)
  | Waiting _ => None
  end.

(** The content of the regular file at [name]. *)
Definition file_content (w : World) (name : string) : option string :=
  match w_fs w !! name with
  | Some (RegularFile _ content) => Some content
  | _ => None
  end.

Definition no_write_fault (env : Env) : Prop := forall k, write_fault env k = None.

(** Why the body of a request is not an offer: it cannot be read, or it
    cannot be parsed; with the text the handler puts before the error. *)
Definition malformed (t : Transport) (r : http.Request) : option (string * error) :=
  match http.Body r with
  | inl err => Some ("Failed to read offer: ", err)
  | inr offerBytes =>
      match json_Unmarshal t offerBytes with
      | inl err => Some ("Failed to parse offer: ", err)
      | inr _ => None
      end
  end.

Definition parsed (t : Transport) (r : http.Request) : option SessionDescription :=
  match http.Body r with
  | inl _ => None
  | inr offerBytes =>
      match json_Unmarshal t offerBytes with
      | inl _ => None
      | inr offer => Some offer
      end
  end.

(** The first step of the negotiation that fails, with the text the handler
    puts before its error. *)
Definition negotiation_failure (t : Transport) (offer : SessionDescription)
  : option (string * error) :=
  match NewPeerConnection t, SetRemoteDescription t offer, CreateDataChannel t,
        CreateAnswer t with
  | Some err, _, _, _ => Some ("Failed to create peer connection: ", err)
  | None, Some err, _, _ => Some ("Failed to set remote description: ", err)
  | None, None, Some err, _ => Some ("Failed to create data channel: ", err)
  | None, None, None, inl err => Some ("Failed to create answer: ", err)
  | None, None, None, inr answer =>
      match SetLocalDescription t answer with
      | Some err => Some ("Failed to set local description: ", err)
      | None => None
      end
  end.

(** What holds of every state the server can reach. *)
Record Inv (s : Server) : Prop := mkInv {
  inv_wg : alive s = true -> wg s = size (streaming s);
  inv_alive_killed : alive s = true -> killed s = ∅;
  inv_neg_str : negotiated s ## streaming s;
  inv_neg_fin : negotiated s ## finished s;
  inv_str_fin : streaming s ## finished s;
  inv_fin_killed : finished s ## killed s;
  inv_fresh : forall i, i ∈ negotiated s ∪ streaming s ∪ finished s ∪ killed s ->
                        i < next_session s;
  inv_closed : match pc s with
               | WaitingGroup | Returning | Exited =>
                   listening s = false /\ served s = true
               | _ => True
               end
}.

Definition before_wait (p : main_pc) : bool :=
  match p with
  | AwaitSignal | ClosingServer | WaitingGroup => true
  | Returning | Exited => false
  end.

(** ** Inputs of the examples *)

(** A sink that takes every write, and a clock that ticks once a case. *)
Definition steady : Env := mkEnv (fun _ => None) (fun n => Z.of_nat n).

(** The file of the first scenario of the specification. *)
Definition three_lines_fs : gmap string node :=
  {[ "lines.txt" := RegularFile true
       ("Line 1" +:+ newline +:+ "Line 2" +:+ newline +:+ "Line 3" +:+ newline) ]}.

(** A sink with no room at all: the write of the first line fails. *)
Definition full_disk : Env :=
  mkEnv (fun k => if k =? 1 then Some (0, PathError "write" "out.txt" ENOSPC) else None)
        (fun n => Z.of_nat n).

(** The file of server_test.go. *)
Definition test_file : string :=
  "Line 1" +:+ newline +:+ "Line 2" +:+ newline +:+ "Line 3" +:+ newline +:+
  "This is a longer line with some special characters: !@#$%^&*()" +:+ newline.

Definition test_fs : gmap string node := {[ "test-stream.txt" := RegularFile true test_file ]}.

Fixpoint string_repeat (c : ascii) (n : nat) : string :=
  match n with
  | 0 => EmptyString
  | S n' => String c (string_repeat c n')
  end.

(** A line of 65537 bytes. *)
Definition long_line : string := string_repeat "a"%char (S bufio.MaxScanTokenSize).

Definition long_fs : gmap string node :=
  {[ "long.txt" := RegularFile true ("Line 1" +:+ newline +:+ long_line +:+ newline +:+ "Line 3") ]}.

Definition crlf_fs : gmap string node :=
  {[ "crlf.txt" := RegularFile true ("a" +:+ String CR newline) ]}.

(** A transport on which every step succeeds. *)
Definition good_transport : Transport :=
  mkTransport (fun _ => inr (mkSessionDescription SDPTypeOffer "v=0"))
    None (fun _ => None) None (inr (mkSessionDescription SDPTypeAnswer "v=0"))
    (fun _ => None) true (mkSessionDescription SDPTypeAnswer "v=0")
    (fun _ => inr "{}").

(** ** streamFile of the commands

    [streamFile] of cmd/webrtc-poc/main.go and of cmd/main.go is the function
    [StreamFile] was made from: the same loop over a data channel, with no
    result. After a read error it logs the error and goes on to the final
    record; its deferred function names itself in the record of a recovered
    panic. *)

Inductive cmd_record :=
| Shared (e : effect)                  (* a record or a sleep [StreamFile] has too *)
| RecoveredInStreamFile (r : string).  (* "Recovered from panic in streamFile: %v" *)

Inductive ending :=
| Returned
| Panicking (r : string).

Record CmdRun (W : Type) := mkCmdRun {
  cr_end : ending;
  cr_writer : W;
  cr_effects : list effect
}.
Arguments mkCmdRun {W}.
Arguments cr_end {W}.
Arguments cr_writer {W}.
Arguments cr_effects {W}.

Section streamFile.
Context {W : Type} `{LineWriter W}.

Equations? stream_loop (delayMs : Z) (scanner : bufio.Scanner)
    (lineCount : nat) (dataChannel : W) (fx : list effect) : CmdRun W
    by wf (String.length (bufio.sc_unread scanner)) lt :=
  stream_loop delayMs scanner lineCount dataChannel fx with inspect (bufio.Scan scanner) => {
    | exist _ (true, scanner') _ with SendText (bufio.Text scanner') dataChannel => {
        | (SendErr e, dataChannel') =>
            mkCmdRun Returned dataChannel'
              (fx ++ [Log ERROR (FailedToSendLine (S lineCount) e)])
        | (SendPanic r, dataChannel') =>
            mkCmdRun (Panicking r) dataChannel' fx
        | (SendOk, dataChannel') =>
            stream_loop delayMs scanner' (S lineCount) dataChannel'
              (fx ++ [Log DEBUG (SentLine (S lineCount) (bufio.Text scanner'));
                      Sleep (Duration_of_ms delayMs)]) }
    | exist _ (false, scanner') _ with bufio.Err scanner' => {
        | Some e =>
            mkCmdRun Returned dataChannel
              (fx ++ [Log ERROR (ErrorReadingFile e);
                      Log INFO (FinishedStreaming lineCount)])
        | None =>
            mkCmdRun Returned dataChannel
              (fx ++ [Log INFO (FinishedStreaming lineCount)]) } }.
Proof. apply Scan_shorter. assumption. Qed.

Definition streamFile_body (fs : gmap string node) (dataChannel : W)
    (filename : string) (delayMs : Z) : CmdRun W :=
  match os_Open fs filename with
  | inl err => mkCmdRun Returned dataChannel [Log ERROR (FailedToOpenFile err)]
  | inr file => stream_loop delayMs (bufio.NewScanner file) 0 dataChannel []
  end.

(** [streamFile]: the writer as it is left, and the log. *)
Definition streamFile (fs : gmap string node) (dataChannel : W)
    (filename : string) (delayMs : Z) : W * list cmd_record :=
  let run := streamFile_body fs dataChannel filename delayMs in
  match cr_end run with
  | Returned => (cr_writer run, map Shared (cr_effects run))
  | Panicking r =>
      (cr_writer run, map Shared (cr_effects run) ++ [RecoveredInStreamFile r])
  end.

End streamFile.

(** The records and sleeps among the log of [streamFile]. *)
Fixpoint shared (log : list cmd_record) : list effect :=
  match log with
  | [] => []
  | Shared e :: log' => e :: shared log'
  | RecoveredInStreamFile _ :: log' => shared log'
  end.

(** ** The receiving goroutine of runClient

    [for line := range dataChan] of cmd/webrtc-poc/main.go and
    cmd/client/main.go, run until the channel is closed: [lines] is what the
    channel delivers before. The results of [fmt.Fprintln] and [fmt.Println]
    are dropped. *)
Fixpoint client_receive (env : Env) (outputFile : option string)
    (lines : list string) (lineCount : nat) (w : World) (tr : list output_event)
  : nat * World * list output_event :=
  match lines with
  | [] => (lineCount, w, tr)
  | line :: lines' =>
      let lineCount := S lineCount in
      match outputFile with
      | Some name =>
          client_receive env outputFile lines' lineCount
            (fst (File_WriteString env lineCount name (line +:+ newline) w))
            (tr ++ [Logged DEBUG (ReceivedLine lineCount line)])
      | None =>
          client_receive env outputFile lines' lineCount
            (Stdout_WriteString env lineCount (line +:+ newline) w)
            (tr ++ [Printed (kept env lineCount (line +:+ newline));
                    Logged DEBUG (ReceivedLine lineCount line)])
      end
  end.

(** What the writes of [lines], the first being line [lineCount + 1], leave
    in a sink that goes on after a failed write, one after the other. *)
Fixpoint kept_text (env : Env) (lineCount : nat) (lines : list string) : string :=
  match lines with
  | [] => EmptyString
  | line :: lines' =>
      kept env (S lineCount) (line +:+ newline) +:+ kept_text env (S lineCount) lines'
  end.

(** ** The logger

    The package keeps three loggers, nil until [Init] runs. A logger writes
    its prefix, the date and the time, and the message, ending the line if
    the message does not. [stamp] stands for the date and time as [log]
    prints them; the message is what [fmt.Sprintf] made of the format and its
    arguments. *)

Module logger.

Inductive stream := Stdout | Stderr.

Record Logger := mkLogger {
  lg_out : stream;
  lg_prefix : string
}.

Record State := mkState {
  infoLogger : option Logger;
  errorLogger : option Logger;
  debugLogger : option Logger;
  stdout : string;
  stderr : string
}.

Definition Init (st : State) : State :=
  mkState (Some (mkLogger Stdout "[INFO] "))
          (Some (mkLogger Stderr "[ERROR] "))
          (Some (mkLogger Stdout "[DEBUG] "))
          (stdout st) (stderr st).

Fixpoint ends_in_newline (s : string) : bool :=
  match s with
  | EmptyString => false
  | String c EmptyString => is_LF c
  | String _ rest => ends_in_newline rest
  end.

(** [l.Output(2, s)] *)
Definition Output (l : Logger) (stamp s : string) (st : State) : State :=
  let line := lg_prefix l +:+ stamp +:+ s +:+
              (if ends_in_newline s then EmptyString else newline) in
  match lg_out l with
  | Stdout => mkState (infoLogger st) (errorLogger st) (debugLogger st)
                (stdout st +:+ line) (stderr st)
  | Stderr => mkState (infoLogger st) (errorLogger st) (debugLogger st)
                (stdout st) (stderr st +:+ line)
  end.

Definition Info (stamp msg : string) (st : State) : State :=
  let st := match infoLogger st with None => Init st | Some _ => st end in
  match infoLogger st with
  | Some l => Output l stamp msg st
  | None => st
  end.

Definition Error (stamp msg : string) (st : State) : State :=
  let st := match errorLogger st with None => Init st | Some _ => st end in
  match errorLogger st with
  | Some l => Output l stamp msg st
  | None => st
  end.

Definition Debug (stamp msg : string) (st : State) : State :=
  let st := match debugLogger st with None => Init st | Some _ => st end in
  match debugLogger st with
  | Some l => Output l stamp msg st
  | None => st
  end.

(** A call of one of the three. *)
Inductive call :=
| CallInfo (stamp msg : string)
| CallError (stamp msg : string)
| CallDebug (stamp msg : string)
| CallInit.

Definition do_call (c : call) (st : State) : State :=
  match c with
  | CallInfo stamp msg => Info stamp msg st
  | CallError stamp msg => Error stamp msg st
  | CallDebug stamp msg => Debug stamp msg st
  | CallInit => Init st
  end.

(** The loggers are nil or as [Init] makes them. *)
Definition as_Init (st : State) : Prop :=
  (infoLogger st = None \/ infoLogger st = Some (mkLogger Stdout "[INFO] ")) /\
  (errorLogger st = None \/ errorLogger st = Some (mkLogger Stderr "[ERROR] ")) /\
  (debugLogger st = None \/ debugLogger st = Some (mkLogger Stdout "[DEBUG] ")).

(** The line a logger with [prefix] writes for [msg]. *)
Definition line (prefix stamp msg : string) : string :=
  prefix +:+ stamp +:+ msg +:+ (if ends_in_newline msg then EmptyString else newline).

(** What a sequence of calls adds to standard output, and to standard error. *)
Fixpoint stdout_lines (calls : list call) : string :=
  match calls with
  | [] => EmptyString
  | CallInfo stamp msg :: calls' => line "[INFO] " stamp msg +:+ stdout_lines calls'
  | CallDebug stamp msg :: calls' => line "[DEBUG] " stamp msg +:+ stdout_lines calls'
  | _ :: calls' => stdout_lines calls'
  end.

Fixpoint stderr_lines (calls : list call) : string :=
  match calls with
  | [] => EmptyString
  | CallError stamp msg :: calls' => line "[ERROR] " stamp msg +:+ stderr_lines calls'
  | _ :: calls' => stderr_lines calls'
  end.

Definition do_calls (calls : list call) (st : State) : State :=
  fold_left (fun st c => do_call c st) calls st.

End logger.

(** ** Vocabulary of the further properties *)

(** The effects are those of lines sent one after the other, each record of
    a sent line followed at once by one sleep of the configured delay, and
    after them only records that are neither. *)
Definition paced (delayMs : Z) (fx : list effect) : Prop :=
  exists rest,
    fx = sent_effects delayMs 0 (sent_lines fx) ++ rest /\
    sleeps rest = [] /\ sent_lines rest = [].

(** The numbers the records of sent lines carry, in order. *)
Fixpoint sent_numbers (fx : list effect) : list nat :=
  match fx with
  | [] => []
  | Log DEBUG (SentLine k _) :: fx' => k :: sent_numbers fx'
  | _ :: fx' => sent_numbers fx'
  end.

(** The count a record carries, seen against [n] lines sent. *)
Definition count_ok (n : nat) (e : effect) : Prop :=
  match e with
  | Log _ (FinishedStreaming k) => k = n
  | Log _ (FailedToSendLine k _) => k = S n
  | _ => True
  end.

(** A record that carries no count. *)
Definition no_count (e : effect) : Prop :=
  match e with
  | Log _ (FinishedStreaming _) | Log _ (FailedToSendLine _ _) => False
  | _ => True
  end.

Definition counts_right (fx : list effect) : Prop :=
  sent_numbers fx = seq 1 (length (sent_lines fx)) /\
  Forall (count_ok (length (sent_lines fx))) fx.

(** The sink of runClient and its receiving goroutine, for a data channel
    that delivers [lines] and is closed then: the count the goroutine logs,
    the world it leaves and what the two have written to the two streams; or
    the error of [os.Create], on which runClient logs and exits. The clock
    ticks once per receive, as for ProcessLines. *)
Definition runClient_receiving (env : Env) (output : string) (lines : list string)
    (w : World) : error * list output_event + nat * World * list output_event :=
  let finish (r : nat * World * list output_event) :=
    (fst (fst r), snd (fst r),
     snd r ++ [Logged INFO (ReceivedLines (fst (fst r)) (since env (S (length lines))))]) in
  if String.eqb output "" then
    inr (finish (client_receive env None lines 0 w [Logged INFO WritingOutputToStdout]))
  else
    match os_Create (w_fs w) output with
    | inl err => inl (err, [Logged ERROR (FailedToCreateOutputFile err)])
    | inr fs' =>
        inr (finish (client_receive env (Some output) lines 0 (mkWorld fs' (w_stdout w))
                       [Logged INFO (WritingOutputToFile output)]))
    end.

(** ** StreamFile of the transfer tests

    The test packages carry a StreamFile of their own, "a simplified version
    for testing": no records, no deferred recover, and the scanner's error as
    the result. A run is told by how it ends, the writer it leaves and the
    sleeps it made. *)

Module e2e.

Record Run (W : Type) := ran {
  ended : completion;
  writer_left : W;
  slept : list Z
}.
Arguments ran {W}.
Arguments ended {W}.
Arguments writer_left {W}.
Arguments slept {W}.

Section StreamFile.
Context {W : Type} `{LineWriter W}.

Equations? scan_lines (delayMs : Z) (scanner : bufio.Scanner) (writer : W)
    (naps : list Z) : Run W
    by wf (String.length (bufio.sc_unread scanner)) lt :=
  scan_lines delayMs scanner writer naps with inspect (bufio.Scan scanner) => {
    | exist _ (true, scanner') _ with SendText (bufio.Text scanner') writer => {
        | (SendErr e, writer') => ran (Returns (Some e)) writer' naps
        | (SendPanic r, writer') => ran (Panics r) writer' naps
        | (SendOk, writer') =>
            scan_lines delayMs scanner' writer' (naps ++ [Duration_of_ms delayMs]) }
    | exist _ (false, scanner') _ => ran (Returns (bufio.Err scanner')) writer naps }.
Proof. apply Scan_shorter. assumption. Qed.

Definition StreamFile (fs : gmap string node) (writer : W)
    (filename : string) (delayMs : Z) : Run W :=
  match os_Open fs filename with
  | inl err => ran (Returns (Some err)) writer []
  | inr file => scan_lines delayMs (bufio.NewScanner file) writer []
  end.

End StreamFile.

End e2e.

(** * Facts *)

(** ** Strings *)

Lemma append_cons (x : ascii) (a b : string) :
  String x a +:+ b = String x (a +:+ b).
Proof. reflexivity. Qed.

Lemma append_nil_l (a : string) : EmptyString +:+ a = a.
Proof. reflexivity. Qed.

Lemma append_assoc (a b c : string) : (a +:+ b) +:+ c = a +:+ (b +:+ c).
Proof.
  induction a as [|x a IH]; [reflexivity |].
  now rewrite !append_cons, IH.
Qed.

Lemma append_nil_r (a : string) : a +:+ EmptyString = a.
Proof.
  induction a as [|x a IH]; [reflexivity |].
  now rewrite append_cons, IH.
Qed.

Lemma length_append (a b : string) :
  String.length (a +:+ b) = String.length a + String.length b.
Proof.
  induction a as [|x a IH]; [reflexivity |].
  rewrite append_cons. simpl. now rewrite IH.
Qed.

Lemma lines_text_app (xs ys : list string) :
  lines_text (xs ++ ys) = lines_text xs +:+ lines_text ys.
Proof.
  induction xs as [|x xs IH]; cbn [lines_text app]; [reflexivity |].
  now rewrite IH, !append_assoc.
Qed.

(** ** The lines of a file and the scanner *)

Lemma file_lines_cons_inv c rest :
  exists l ls, file_lines (String c rest) = l :: ls.
Proof.
  simpl. destruct (is_LF c); [eauto |].
  destruct (file_lines rest); eauto.
Qed.

Lemma file_lines_nil data : file_lines data = [] -> data = EmptyString.
Proof.
  destruct data as [|c rest]; [reflexivity |].
  destruct (file_lines_cons_inv c rest) as (l & ls & E). rewrite E. discriminate.
Qed.

Lemma first_line_length data l ls :
  file_lines data = l :: ls -> String.length l <= String.length data.
Proof.
  revert l ls. induction data as [|c rest IH]; simpl; intros l ls; [discriminate |].
  destruct (is_LF c).
  - intros [= <- _]. simpl. lia.
  - destruct (file_lines rest) as [|l' ls'] eqn:E.
    + intros [= <- _]. simpl. lia.
    + intros [= <- _]. simpl. specialize (IH _ _ eq_refl). lia.
Qed.

Lemma IndexByte_Some_lines window data l r :
  bufio.IndexByte window data = Some (l, r) ->
  file_lines data = l :: file_lines r /\ String.length l < window.
Proof.
  revert data l r.
  induction window as [|m IH]; intros [|c rest] l r; simpl; try discriminate.
  destruct (is_LF c).
  - intros [= <- <-]. simpl. split; [reflexivity | lia].
  - destruct (bufio.IndexByte m rest) as [[l' r']|] eqn:E; [|discriminate].
    intros [= <- <-]. destruct (IH _ _ _ E) as [-> Hlen].
    simpl. split; [reflexivity | lia].
Qed.

Lemma IndexByte_None_lines window data :
  bufio.IndexByte window data = None ->
  data = EmptyString \/
  exists l ls, file_lines data = l :: ls /\
               (window <= String.length l \/ (ls = [] /\ l = data)).
Proof.
  revert data.
  induction window as [|m IH]; intros [|c rest]; simpl; auto.
  - intros _. right.
    destruct (file_lines_cons_inv c rest) as (l & ls & E). simpl in E.
    exists l, ls. split; [exact E | left; lia].
  - destruct (is_LF c); [discriminate |].
    destruct (bufio.IndexByte m rest) as [[l' r']|] eqn:E; [discriminate |].
    intros _. right. destruct (IH _ E) as [-> | (l & ls & El & Hl)].
    + exists (String c EmptyString), []. simpl. auto.
    + rewrite El. exists (String c l), ls. split; [reflexivity |].
      destruct Hl as [Hl | [-> ->]]; [left; simpl; lia | right; auto].
Qed.

(** A line that fits the buffer is the next token, without its carriage
    return, and the scanner moves on to the lines after it. *)
Lemma Scan_line s l ls :
  file_lines (bufio.sc_unread s) = l :: ls ->
  String.length l < bufio.maxTokenSize s ->
  exists s', bufio.Scan s = (true, s') /\
             bufio.Text s' = bufio.dropCR l /\
             file_lines (bufio.sc_unread s') = ls /\
             bufio.maxTokenSize s' = bufio.maxTokenSize s /\
             bufio.sc_fail s' = bufio.sc_fail s.
Proof.
  intros El Hlen. unfold bufio.Scan.
  destruct (bufio.IndexByte _ _) as [[l0 r]|] eqn:E.
  - apply IndexByte_Some_lines in E as [E _]. rewrite El in E.
    injection E as -> ->. eexists. split; [reflexivity |]. simpl. auto.
  - apply IndexByte_None_lines in E as [E | (l0 & ls0 & E & Hl)].
    + rewrite E in El. discriminate.
    + rewrite El in E. injection E as <- <-.
      destruct Hl as [Hl | [-> Hd]]; [lia |].
      rewrite <- Hd.
      destruct (Nat.leb_spec (bufio.maxTokenSize s) (String.length l)); [lia |].
      destruct l as [|c l]; [rewrite <- Hd in El; discriminate |].
      eexists. split; [reflexivity |]. simpl. auto.
Qed.

(** A line that does not fit the buffer ends the scan with [ErrTooLong]. *)
Lemma Scan_too_long s l ls :
  file_lines (bufio.sc_unread s) = l :: ls ->
  bufio.maxTokenSize s <= String.length l ->
  exists s', bufio.Scan s = (false, s') /\ bufio.Err s' = Some bufio_ErrTooLong.
Proof.
  intros El Hlen. unfold bufio.Scan.
  destruct (bufio.IndexByte _ _) as [[l0 r]|] eqn:E.
  - apply IndexByte_Some_lines in E as [E Hl]. rewrite El in E.
    injection E as -> _. lia.
  - pose proof (first_line_length _ _ _ El).
    destruct (Nat.leb_spec (bufio.maxTokenSize s) (String.length (bufio.sc_unread s)));
      [| lia].
    eexists. split; reflexivity.
Qed.

Lemma Scan_end s :
  bufio.sc_unread s = EmptyString ->
  0 < bufio.maxTokenSize s ->
  exists s', bufio.Scan s = (false, s') /\ bufio.Err s' = read_error (bufio.sc_fail s).
Proof.
  intros E Hmax. unfold bufio.Scan. rewrite E.
  destruct (bufio.maxTokenSize s) as [|m] eqn:Em; [lia |]. simpl.
  eexists. split; [reflexivity |].
  unfold bufio.Err, read_error. simpl. destruct (bufio.sc_fail s); reflexivity.
Qed.

(** ** The streaming loop *)

Lemma sent_lines_app fx fx' : sent_lines (fx ++ fx') = sent_lines fx ++ sent_lines fx'.
Proof.
  induction fx as [|[[] []|] fx IH]; simpl; rewrite ?IH; reflexivity.
Qed.

Lemma sent_lines_sent_effects delayMs n ts : sent_lines (sent_effects delayMs n ts) = ts.
Proof.
  revert n. induction ts as [|t ts IH]; intros n; simpl; [reflexivity |].
  now rewrite IH.
Qed.

Lemma sleeps_app fx fx' : sleeps (fx ++ fx') = sleeps fx ++ sleeps fx'.
Proof.
  induction fx as [|[|] fx IH]; simpl; rewrite ?IH; reflexivity.
Qed.

Lemma sleeps_sent_effects delayMs n ts :
  sleeps (sent_effects delayMs n ts) = repeat (Duration_of_ms delayMs) (length ts).
Proof.
  revert n. induction ts as [|t ts IH]; intros n; simpl; [reflexivity |].
  now rewrite IH.
Qed.

Section StreamFileFacts.
Context {W : Type} `{LineWriter W}.

Lemma scan_loop_step delayMs scanner lineCount (writer : W) fx :
  scan_loop delayMs scanner lineCount writer fx =
  match bufio.Scan scanner with
  | (true, scanner') =>
      match SendText (bufio.Text scanner') writer with
      | (SendErr e, writer') =>
          mkRun (Returns (Some e)) writer'
            (fx ++ [Log ERROR (FailedToSendLine (S lineCount) e)])
      | (SendPanic r, writer') => mkRun (Panics r) writer' fx
      | (SendOk, writer') =>
          scan_loop delayMs scanner' (S lineCount) writer'
            (fx ++ [Log DEBUG (SentLine (S lineCount) (bufio.Text scanner'));
                    Sleep (Duration_of_ms delayMs)])
      end
  | (false, scanner') =>
      match bufio.Err scanner' with
      | Some e => mkRun (Returns (Some e)) writer (fx ++ [Log ERROR (ErrorReadingFile e)])
      | None => mkRun (Returns None) writer (fx ++ [Log INFO (FinishedStreaming lineCount)])
      end
  end.
Proof.
  funelim (scan_loop delayMs scanner lineCount writer fx);
    match goal with E : bufio.Scan _ = _ |- _ => rewrite E end;
    try match goal with E : SendText _ _ = _ |- _ => rewrite E end;
    try match goal with E : bufio.Err _ = _ |- _ => rewrite E end;
    reflexivity.
Qed.

(** The loop sends the lines of the unread input one by one. *)
Lemma scan_loop_lines delayMs ls : forall scanner lineCount (writer : W) fx,
  file_lines (bufio.sc_unread scanner) = ls ->
  0 < bufio.maxTokenSize scanner ->
  scan_loop delayMs scanner lineCount writer fx =
  send_lines delayMs (bufio.maxTokenSize scanner) (bufio.sc_fail scanner)
    ls lineCount writer fx.
Proof.
  induction ls as [|l ls IH]; intros s n w fx El Hmax; rewrite scan_loop_step.
  - apply file_lines_nil in El.
    destruct (Scan_end s El Hmax) as (s' & -> & ->). reflexivity.
  - cbn [send_lines].
    destruct (Nat.leb_spec (bufio.maxTokenSize s) (String.length l)) as [Hl | Hl].
    + destruct (Scan_too_long s l ls El Hl) as (s' & -> & ->). reflexivity.
    + destruct (Scan_line s l ls El Hl) as (s' & -> & -> & El' & Em & Ef).
      destruct (SendText _ _) as [[] w']; try reflexivity.
      rewrite IH by (auto; lia). now rewrite Em, Ef.
Qed.

Lemma MaxScanTokenSize_pos : 0 < bufio.MaxScanTokenSize.
Proof. unfold bufio.MaxScanTokenSize. lia. Qed.

Lemma StreamFile_body_lines fs wr content (writer : W) filename delayMs :
  fs !! filename = Some (RegularFile wr content) ->
  StreamFile_body fs writer filename delayMs =
  send_lines delayMs bufio.MaxScanTokenSize None (file_lines content) 0 writer [].
Proof.
  intros E. unfold StreamFile_body, os_Open. rewrite E.
  rewrite (scan_loop_lines _ (file_lines content)); [reflexivity | reflexivity |].
  apply MaxScanTokenSize_pos.
Qed.

(** While the writer accepts them, lines that fit are sent and logged. *)
Lemma send_lines_deliver delayMs max fail pre : forall post n (w w' : W) fx,
  Forall (fits max) pre ->
  deliver (map bufio.dropCR pre) w = Some w' ->
  send_lines delayMs max fail (pre ++ post) n w fx =
  send_lines delayMs max fail post (n + length pre) w'
    (fx ++ sent_effects delayMs n (map bufio.dropCR pre)).
Proof.
  induction pre as [|l pre IH]; intros post n w w' fx Hfit Hd.
  - injection Hd as <-. simpl. now rewrite Nat.add_0_r, app_nil_r.
  - inversion Hfit as [|? ? Hl Hfit']; subst.
    cbn [app send_lines map deliver] in *.
    destruct (Nat.leb_spec max (String.length l)); [unfold fits in Hl; lia |].
    destruct (SendText _ _) as [[] w1]; try discriminate.
    rewrite (IH post (S n) w1 w') by assumption.
    cbn [sent_effects length]. rewrite <- app_assoc. simpl.
    now replace (n + S (length pre)) with (S (n + length pre)) by lia.
Qed.

(** Whatever the writer does, only lines before the first one that does not
    fit are ever reported as sent. *)
Lemma send_lines_sent_prefix delayMs max fail pre l post :
  max <= String.length l ->
  forall n (w : W) fx,
  sent_lines (run_effects (send_lines delayMs max fail (pre ++ l :: post) n w fx))
    `prefix_of` sent_lines fx ++ map bufio.dropCR pre.
Proof.
  intros Hl. induction pre as [|p pre IH]; intros n w fx; cbn [app send_lines map].
  - destruct (Nat.leb_spec max (String.length l)); [| lia].
    simpl. rewrite sent_lines_app. simpl. reflexivity.
  - destruct (max <=? String.length p).
    { simpl. rewrite sent_lines_app. simpl. rewrite app_nil_r. now apply prefix_app_r. }
    destruct (SendText _ _) as [[] w1]; simpl.
    + etransitivity; [apply IH |].
      rewrite sent_lines_app. simpl. now rewrite <- app_assoc.
    + rewrite sent_lines_app. simpl. rewrite app_nil_r. now apply prefix_app_r.
    + now apply prefix_app_r.
Qed.

End StreamFileFacts.

(** ** The receiving loop *)

Lemma append_file_append name a b w :
  append_file name b (append_file name a w) = append_file name (a +:+ b) w.
Proof.
  unfold append_file.
  destruct (w_fs w !! name) as [[wr content|]|] eqn:E; simpl; rewrite ?E; try reflexivity.
  rewrite lookup_insert_eq, insert_insert_eq. now rewrite append_assoc.
Qed.

Lemma append_file_nil name w : append_file name EmptyString w = w.
Proof.
  unfold append_file. destruct w as [fs out]. simpl.
  destruct (fs !! name) as [[wr content|]|] eqn:E; try reflexivity.
  rewrite append_nil_r. now rewrite insert_id.
Qed.

Lemma append_file_other name data w other :
  other <> name -> w_fs (append_file name data w) !! other = w_fs w !! other.
Proof.
  intros Hne. unfold append_file.
  destruct (w_fs w !! name) as [[]|]; simpl; try reflexivity.
  now rewrite lookup_insert_ne.
Qed.

Lemma file_content_append name data w content :
  file_content w name = Some content ->
  file_content (append_file name data w) name = Some (content +:+ data).
Proof.
  unfold file_content, append_file.
  destruct (w_fs w !! name) as [[wr c|]|] eqn:E; try discriminate.
  intros [= ->]. simpl. now rewrite lookup_insert_eq.
Qed.

(** ** What a sink keeps *)

Lemma kept_text_no_fault env : no_write_fault env ->
  forall lines lineCount, kept_text env lineCount lines = lines_text lines.
Proof.
  intros Hnf. induction lines as [|line lines IH]; intros c; cbn [kept_text lines_text].
  - reflexivity.
  - unfold kept. now rewrite Hnf, IH, append_assoc.
Qed.

Lemma line_events_no_fault env to_stdout : no_write_fault env ->
  forall lines lineCount,
  line_events (kept env) to_stdout lineCount lines
  = line_events whole to_stdout lineCount lines.
Proof.
  intros Hnf. induction lines as [|line lines IH]; intros c; cbn [line_events].
  - reflexivity.
  - unfold kept at 1. now rewrite Hnf, IH.
Qed.

Lemma printed_app xs ys : printed (xs ++ ys) = printed xs ++ printed ys.
Proof.
  induction xs as [|[data | lv m] xs IH]; simpl; [reflexivity | now rewrite IH | exact IH].
Qed.

Lemma printed_line_events written lineCount lines :
  printed (line_events written true lineCount lines)
  = map (fun kl => written (fst kl) (snd kl +:+ newline))
        (combine (seq (S lineCount) (length lines)) lines) /\
  printed (line_events written false lineCount lines) = [].
Proof.
  revert lineCount. induction lines as [|line lines IH]; intros c; cbn [line_events].
  - split; reflexivity.
  - destruct (IH (S c)) as [Ht Hf]. simpl. now rewrite Ht, Hf.
Qed.

Lemma printed_whole lineCount lines :
  printed (line_events whole true lineCount lines) = map (fun l => l +:+ newline) lines.
Proof.
  revert lineCount. induction lines as [|line lines IH]; intros c; cbn [line_events].
  - reflexivity.
  - simpl. now rewrite IH.
Qed.

(** Cases that do not end the loop are run through one after the other, as
    long as no write fails. *)
Lemma process_loop_file_quiet env name pre : forall rest c n w tr,
  Forall (fun x => goes_on x = true) pre ->
  (forall k, c < k <= c + length (received pre) -> write_fault env k = None) ->
  process_loop env (Some name) (pre ++ rest) c n w tr =
  process_loop env (Some name) rest (c + length (received pre)) (n + length pre)
    (append_file name (lines_text (received pre)) w)
    (tr ++ line_events whole false c (received pre)).
Proof.
  induction pre as [|x pre IH]; intros rest c n w tr Hq Hf.
  - simpl. now rewrite !Nat.add_0_r, append_file_nil, app_nil_r.
  - inversion Hq as [|? ? Hx Hq']; subst.
    destruct x as [line| | |]; try discriminate; cbn [app process_loop received].
    + unfold File_WriteString. rewrite Hf by (simpl; lia).
      rewrite IH; [| assumption | intros k Hk; apply Hf; simpl; lia].
      rewrite append_file_append. cbn [lines_text length line_events app].
      rewrite append_assoc, <- app_assoc. cbn [app].
      now replace (S c + length (received pre)) with (c + S (length (received pre))) by lia;
        replace (S n + length pre) with (n + S (length pre)) by lia.
    + rewrite IH; [| assumption | assumption].
      cbn [length].
      now replace (S n + length pre) with (n + S (length pre)) by lia.
Qed.

(** Standard output takes what each write leaves; no write stops the loop. *)
Lemma process_loop_stdout_quiet env pre : forall rest c n w tr,
  Forall (fun x => goes_on x = true) pre ->
  process_loop env None (pre ++ rest) c n w tr =
  process_loop env None rest (c + length (received pre)) (n + length pre)
    (mkWorld (w_fs w) (w_stdout w +:+ kept_text env c (received pre)))
    (tr ++ line_events (kept env) true c (received pre)).
Proof.
  induction pre as [|x pre IH]; intros rest c n w tr Hq.
  - simpl. rewrite !Nat.add_0_r, append_nil_r, app_nil_r. now destruct w.
  - inversion Hq as [|? ? Hx Hq']; subst.
    destruct x as [line| | |]; try discriminate; cbn [app process_loop received].
    + rewrite IH by assumption.
      unfold Stdout_WriteString. cbn [w_fs w_stdout kept_text length line_events app].
      rewrite append_assoc, <- app_assoc. cbn [app].
      now replace (S c + length (received pre)) with (c + S (length (received pre))) by lia;
        replace (S n + length pre) with (n + S (length pre)) by lia.
    + rewrite IH by assumption. cbn [length].
      now replace (S n + length pre) with (n + S (length pre)) by lia.
Qed.

(** A run through cases that do not end the loop either stops at a failed
    write, whatever follows, or reaches what follows. *)
Lemma process_loop_prefix env outputFile pre : forall c n w tr,
  Forall (fun x => goes_on x = true) pre ->
  (exists r, (exists k t err, pr_outcome r = Done k t (Some err)) /\
             forall rest, process_loop env outputFile (pre ++ rest) c n w tr = r) \/
  (exists w' tr', forall rest,
      process_loop env outputFile (pre ++ rest) c n w tr
      = process_loop env outputFile rest (c + length (received pre)) (n + length pre)
          w' tr').
Proof.
  induction pre as [|x pre IH]; intros c n w tr Hq.
  - right. exists w, tr. intros rest. simpl. now rewrite !Nat.add_0_r.
  - inversion Hq as [|? ? Hx Hq']; subst.
    destruct x as [line| | |]; try discriminate; cbn [app process_loop received length].
    + destruct outputFile as [name|].
      * destruct (File_WriteString env (S c) name (line +:+ newline) w) as [w1 [err|]].
        { left. eexists. split; [| intros rest; reflexivity]. simpl. eauto. }
        destruct (IH (S c) (S n) w1 (tr ++ [Logged DEBUG (ReceivedLine (S c) line)]) Hq')
          as [(r & Hr & Hrest) | (w' & tr' & Hrest)].
        { left. exists r. auto. }
        right. exists w', tr'. intros rest. rewrite Hrest.
        now replace (S c + length (received pre)) with (c + S (length (received pre))) by lia;
          replace (S n + length pre) with (n + S (length pre)) by lia.
      * destruct (IH (S c) (S n) (Stdout_WriteString env (S c) (line +:+ newline) w)
                    (tr ++ [Printed (kept env (S c) (line +:+ newline));
                            Logged DEBUG (ReceivedLine (S c) line)]) Hq')
          as [(r & Hr & Hrest) | (w' & tr' & Hrest)].
        { left. exists r. auto. }
        right. exists w', tr'. intros rest. rewrite Hrest.
        now replace (S c + length (received pre)) with (c + S (length (received pre))) by lia;
          replace (S n + length pre) with (n + S (length pre)) by lia.
    + destruct (IH c (S n) w tr Hq') as [(r & Hr & Hrest) | (w' & tr' & Hrest)].
      { left. exists r. auto. }
      right. exists w', tr'. intros rest. rewrite Hrest.
      now replace (S n + length pre) with (n + S (length pre)) by lia.
Qed.

Lemma process_loop_polls env outputFile p : forall rest c n w tr,
  process_loop env outputFile (repeat ErrChanClosed p ++ rest) c n w tr =
  process_loop env outputFile rest c (n + p) w tr.
Proof.
  induction p as [|p IH]; intros rest c n w tr; simpl.
  - now rewrite Nat.add_0_r.
  - rewrite IH. now replace (S n + p) with (n + S p) by lia.
Qed.

Lemma os_Create_inr fs name fs' :
  os_Create fs name = inr fs' -> fs' = <[name := RegularFile true EmptyString]> fs.
Proof.
  unfold os_Create. destruct (fs !! name) as [[[] ?|]|]; congruence.
Qed.

Lemma file_content_created fs name out :
  file_content (mkWorld (<[name := RegularFile true EmptyString]> fs) out) name
  = Some EmptyString.
Proof. unfold file_content. simpl. now rewrite lookup_insert_eq. Qed.

Lemma ProcessLines_file {R} `{LineReceiver R} env (receiver : R) output w fs' :
  output <> EmptyString ->
  os_Create (w_fs w) output = inr fs' ->
  ProcessLines env receiver output w =
  process_loop env (Some output) (ReceiveLines receiver) 0 0
    (mkWorld (<[output := RegularFile true EmptyString]> (w_fs w)) (w_stdout w))
    [Logged INFO (WritingOutputToFile output)].
Proof.
  intros Hne Hc. unfold ProcessLines.
  destruct (String.eqb_spec output ""); [contradiction |].
  rewrite Hc. now rewrite (os_Create_inr _ _ _ Hc).
Qed.

Lemma goes_on_lines ls : Forall (fun x => goes_on x = true) (map RecvLine ls).
Proof. induction ls; simpl; constructor; auto. Qed.

Lemma received_lines ls : received (map RecvLine ls) = ls.
Proof. induction ls as [|l ls IH]; simpl; [reflexivity | now rewrite IH]. Qed.

Lemma process_loop_EOF_like_close env outputFile ls polls rest1 rest2 c n w tr :
  result_of (process_loop env outputFile
               (map RecvLine ls ++ RecvErr (Some io_EOF) :: rest1) c n w tr)
  = result_of (process_loop env outputFile
                 (map RecvLine ls ++ repeat ErrChanClosed polls ++ LineChanClosed :: rest2)
                 c n w tr) /\
  pr_world (process_loop env outputFile
              (map RecvLine ls ++ RecvErr (Some io_EOF) :: rest1) c n w tr)
  = pr_world (process_loop env outputFile
                (map RecvLine ls ++ repeat ErrChanClosed polls ++ LineChanClosed :: rest2)
                c n w tr).
Proof.
  destruct (process_loop_prefix env outputFile (map RecvLine ls) c n w tr (goes_on_lines ls))
    as [(r & _ & Hr) | (w' & tr' & Hw)].
  - now rewrite !Hr.
  - rewrite !Hw, process_loop_polls. simpl. auto.
Qed.

Lemma received_app xs ys : received (xs ++ ys) = received xs ++ received ys.
Proof.
  induction xs as [|[line | | err |] xs IH]; simpl; auto. now rewrite IH.
Qed.

Lemma line_events_app written to_stdout xs : forall ys lineCount,
  line_events written to_stdout lineCount (xs ++ ys)
  = line_events written to_stdout lineCount xs
    ++ line_events written to_stdout (lineCount + length xs) ys.
Proof.
  induction xs as [|x xs IH]; intros ys c; cbn [app line_events length].
  - now rewrite Nat.add_0_r.
  - rewrite IH, <- app_assoc. cbn [app].
    now replace (S c + length xs) with (c + S (length xs)) by lia.
Qed.

Lemma line_events_ext written written' to_stdout lines : forall lineCount,
  (forall k data, lineCount < k <= lineCount + length lines ->
                  written k data = written' k data) ->
  line_events written to_stdout lineCount lines
  = line_events written' to_stdout lineCount lines.
Proof.
  induction lines as [|line lines IH]; intros c Hsame; cbn [line_events].
  - reflexivity.
  - rewrite (Hsame (S c)) by (simpl; lia).
    rewrite IH; [reflexivity |]. intros k data Hk. apply Hsame. simpl. lia.
Qed.

(** A run with standard output as the sink: the file system is left alone,
    and the trace is the lines consumed, each written and recorded, and
    after them at most records. *)
Lemma process_loop_consumed_stdout env cases : forall c n w tr,
  w_fs (pr_world (process_loop env None cases c n w tr)) = w_fs w /\
  exists tail,
    pr_trace (process_loop env None cases c n w tr)
    = tr ++ line_events (kept env) true c (consumed cases) ++ tail /\
    printed tail = [].
Proof.
  induction cases as [|x cases IH]; intros c n w tr.
  - simpl. split; [reflexivity |]. exists []. now rewrite app_nil_r.
  - destruct x as [line | | err |]; cbn [process_loop consumed line_events].
    + destruct (IH (S c) (S n) (Stdout_WriteString env (S c) (line +:+ newline) w)
                  (tr ++ [Printed (kept env (S c) (line +:+ newline));
                          Logged DEBUG (ReceivedLine (S c) line)]))
        as (Hfs & tail & Htr & Htail).
      split; [exact Hfs |]. exists tail. split; [| exact Htail].
      rewrite Htr, <- app_assoc. reflexivity.
    + split; [reflexivity |]. eexists. split; [reflexivity | reflexivity].
    + split; [destruct err as [[] |]; reflexivity |].
      destruct err as [[] |]; eexists; (split; [reflexivity | reflexivity]).
    + apply IH.
Qed.

(** A run with a file as the sink, when no write fails: the file takes the
    lines consumed, nothing else changes, and the trace holds records
    only. *)
Lemma process_loop_consumed_file env name cases :
  no_write_fault env ->
  forall c n w tr content,
  file_content w name = Some content ->
  file_content (pr_world (process_loop env (Some name) cases c n w tr)) name
  = Some (content +:+ lines_text (consumed cases)) /\
  (forall other, other <> name ->
     w_fs (pr_world (process_loop env (Some name) cases c n w tr)) !! other
     = w_fs w !! other) /\
  exists tail,
    pr_trace (process_loop env (Some name) cases c n w tr)
    = tr ++ line_events whole false c (consumed cases) ++ tail /\
    printed tail = [].
Proof.
  intros Hnf. induction cases as [|x cases IH]; intros c n w tr content Hcontent.
  - simpl. rewrite append_nil_r. split; [exact Hcontent |]. split; [reflexivity |].
    exists []. now rewrite app_nil_r.
  - destruct x as [line | | err |]; cbn [process_loop consumed line_events lines_text].
    + unfold File_WriteString. rewrite Hnf.
      destruct (IH (S c) (S n) (append_file name (line +:+ newline) w)
                  (tr ++ [Logged DEBUG (ReceivedLine (S c) line)])
                  (content +:+ line +:+ newline)) as (Hfile & Hother & tail & Htr & Htail).
      { now apply file_content_append. }
      split; [now rewrite Hfile, !append_assoc |].
      split; [intros other Hne; now rewrite Hother, append_file_other |].
      exists tail. split; [| exact Htail]. rewrite Htr, <- app_assoc. reflexivity.
    + simpl. rewrite append_nil_r. split; [exact Hcontent |]. split; [reflexivity |].
      eexists. split; [reflexivity | reflexivity].
    + rewrite append_nil_r.
      destruct err as [[] |]; simpl; (split; [exact Hcontent |]);
        (split; [reflexivity |]); eexists; (split; [reflexivity | reflexivity]).
    + now apply IH.
Qed.

(** ** Carriage returns at line boundaries *)

Lemma CR_before_LF_line l rest :
  has_LF l = false ->
  CR_before_LF (l +:+ newline +:+ rest) = ends_in_CR l || CR_before_LF rest.
Proof.
  induction l as [|c l IH]; intros Hl.
  - rewrite append_nil_l. unfold newline. rewrite append_cons, append_nil_l.
    cbn [CR_before_LF ends_in_CR]. change (is_CR LF) with false.
    destruct rest; reflexivity.
  - simpl in Hl. apply orb_false_iff in Hl as [Hc Hl].
    rewrite append_cons. cbn [CR_before_LF]. rewrite (IH Hl).
    destruct l as [|d l].
    + rewrite append_nil_l. unfold newline at 1. rewrite append_cons.
      change (is_LF LF) with true. rewrite andb_true_r. cbn [ends_in_CR].
      now rewrite orb_false_l.
    + rewrite append_cons. simpl in Hl. apply orb_false_iff in Hl as [Hd _].
      rewrite Hd, andb_false_r. reflexivity.
Qed.

Lemma CR_before_LF_lines_text ls :
  Forall (fun l => has_LF l = false) ls ->
  CR_before_LF (lines_text ls) = existsb ends_in_CR ls.
Proof.
  induction 1 as [|l ls Hl _ IH]; [reflexivity |].
  cbn [lines_text existsb]. now rewrite CR_before_LF_line, IH.
Qed.

(** ** Files written line by line *)

Lemma has_LF_app a b : has_LF (a +:+ b) = has_LF a || has_LF b.
Proof.
  induction a as [|c a IH]; [reflexivity |].
  rewrite append_cons. simpl. now rewrite IH, orb_assoc.
Qed.

Lemma file_lines_line l rest :
  has_LF l = false ->
  file_lines (l +:+ newline +:+ rest) = l :: file_lines rest.
Proof.
  induction l as [|c l IH]; intros Hl.
  - reflexivity.
  - simpl in Hl. apply orb_false_iff in Hl as [Hc Hl].
    rewrite append_cons. cbn [file_lines]. rewrite Hc, (IH Hl). reflexivity.
Qed.

Lemma file_lines_last l :
  has_LF l = false -> l <> EmptyString -> file_lines l = [l].
Proof.
  induction l as [|c l IH]; intros Hl Hne; [contradiction |].
  simpl in Hl. apply orb_false_iff in Hl as [Hc Hl].
  cbn [file_lines]. rewrite Hc.
  destruct l as [|c' l]; [reflexivity |].
  rewrite (IH Hl) by discriminate. reflexivity.
Qed.

Lemma has_LF_string_repeat c n : is_LF c = false -> has_LF (string_repeat c n) = false.
Proof. intros Hc. induction n as [|n IH]; simpl; [reflexivity | now rewrite Hc, IH]. Qed.

Lemma length_string_repeat c n : String.length (string_repeat c n) = n.
Proof. induction n as [|n IH]; simpl; [reflexivity | now rewrite IH]. Qed.

Lemma dropCR_CR l : bufio.dropCR (l +:+ String CR EmptyString) = l.
Proof.
  induction l as [|c l IH]; [reflexivity |].
  rewrite append_cons. cbn [bufio.dropCR]. rewrite IH.
  destruct l; reflexivity.
Qed.

Lemma file_lines_crlf_text ls :
  Forall (fun l => has_LF l = false) ls ->
  file_lines (crlf_text ls) = map (fun l => l +:+ String CR EmptyString) ls.
Proof.
  induction 1 as [|l ls Hl _ IH]; [reflexivity |].
  cbn [crlf_text map].
  change (String CR newline) with (String CR EmptyString +:+ newline).
  rewrite <- !append_assoc, append_assoc.
  rewrite file_lines_line, IH; [reflexivity |].
  rewrite has_LF_app, Hl. reflexivity.
Qed.

Lemma map_dropCR_CR ls :
  map bufio.dropCR (map (fun l => l +:+ String CR EmptyString) ls) = ls.
Proof.
  induction ls as [|l ls IH]; simpl; [reflexivity |].
  now rewrite dropCR_CR, IH.
Qed.

(** ** A writer that takes every line *)

Lemma deliver_channelWriter ts q :
  deliver ts (mkChannelWriter q false) = Some (mkChannelWriter (q ++ ts) false).
Proof.
  revert q. induction ts as [|t ts IH]; intros q; simpl.
  - now rewrite app_nil_r.
  - rewrite IH. now rewrite <- app_assoc.
Qed.

Lemma StreamFile_all_sent {W} `{LineWriter W} fs wr content (writer w' : W)
    filename delayMs :
  fs !! filename = Some (RegularFile wr content) ->
  Forall (fits bufio.MaxScanTokenSize) (file_lines content) ->
  deliver (map bufio.dropCR (file_lines content)) writer = Some w' ->
  StreamFile fs writer filename delayMs
  = mkRun (Returns None) w'
      (sent_effects delayMs 0 (map bufio.dropCR (file_lines content))
       ++ [Log INFO (FinishedStreaming (length (file_lines content)))]).
Proof.
  intros Hfile Hfit Hd. unfold StreamFile.
  rewrite (StreamFile_body_lines _ _ _ _ _ _ Hfile).
  pose proof (send_lines_deliver delayMs bufio.MaxScanTokenSize None
                (file_lines content) [] 0 writer w' [] Hfit Hd) as Hb.
  rewrite app_nil_r in Hb. rewrite Hb. reflexivity.
Qed.

(** The transfer of a file whose lines all fit, into a sink that takes every
    write. *)
Lemma SimpleFileTransfer_cases w wr content input delayMs err_first :
  w_fs w !! input = Some (RegularFile wr content) ->
  Forall (fits bufio.MaxScanTokenSize) (file_lines content) ->
  transfer_cases (StreamFile (w_fs w) (mkChannelWriter [] false) input delayMs) err_first
  = map RecvLine (map bufio.dropCR (file_lines content)) ++ [LineChanClosed].
Proof.
  intros Hfile Hfit.
  rewrite (StreamFile_all_sent _ _ _ _ _ _ _ Hfile Hfit (deliver_channelWriter _ _)).
  reflexivity.
Qed.

(** ** A whole transfer *)

(** What the sender does with a file whose lines all fit the scanner. *)
Lemma StreamFile_into_channel fs wr content input delayMs :
  fs !! input = Some (RegularFile wr content) ->
  Forall (fits bufio.MaxScanTokenSize) (file_lines content) ->
  run_end (StreamFile fs (mkChannelWriter [] false) input delayMs) = Returns None /\
  sent_lines (run_effects (StreamFile fs (mkChannelWriter [] false) input delayMs))
  = map bufio.dropCR (file_lines content) /\
  sleeps (run_effects (StreamFile fs (mkChannelWriter [] false) input delayMs))
  = repeat (Duration_of_ms delayMs) (length (file_lines content)).
Proof.
  intros Hfile Hfit.
  rewrite (StreamFile_all_sent _ _ _ _ _ _ delayMs Hfile Hfit
             (deliver_channelWriter (map bufio.dropCR (file_lines content)) [])).
  cbn [run_end run_effects]. split; [reflexivity |].
  rewrite sent_lines_app, sleeps_app, sent_lines_sent_effects, sleeps_sent_effects.
  simpl. rewrite !app_nil_r, length_map. auto.
Qed.

(** The receiver, fed from it, with standard output as the sink. *)
Lemma SimpleFileTransfer_stdout env err_first input delayMs w wr content :
  w_fs w !! input = Some (RegularFile wr content) ->
  Forall (fits bufio.MaxScanTokenSize) (file_lines content) ->
  result_of (SimpleFileTransfer env err_first input delayMs EmptyString w)
  = Some (length (file_lines content), None) /\
  w_fs (pr_world (SimpleFileTransfer env err_first input delayMs EmptyString w)) = w_fs w /\
  pr_trace (SimpleFileTransfer env err_first input delayMs EmptyString w)
  = Logged INFO WritingOutputToStdout
    :: line_events (kept env) true 0 (map bufio.dropCR (file_lines content))
    ++ [Logged INFO (ReceivedLines (length (file_lines content))
                       (since env (S (length (file_lines content)))))].
Proof.
  intros Hfile Hfit. unfold SimpleFileTransfer, ProcessLines.
  change (ReceiveLines ?r) with (recv_cases r). cbn [recv_cases String.eqb].
  rewrite (SimpleFileTransfer_cases w wr content input delayMs err_first Hfile Hfit).
  rewrite process_loop_stdout_quiet by apply goes_on_lines.
  rewrite received_lines, !length_map. simpl. auto.
Qed.

(** The receiver, fed from it, with a file as the sink. *)
Lemma SimpleFileTransfer_file env err_first input delayMs output w wr content fs' :
  w_fs w !! input = Some (RegularFile wr content) ->
  Forall (fits bufio.MaxScanTokenSize) (file_lines content) ->
  output <> EmptyString ->
  os_Create (w_fs w) output = inr fs' ->
  no_write_fault env ->
  result_of (SimpleFileTransfer env err_first input delayMs output w)
  = Some (length (file_lines content), None) /\
  file_content (pr_world (SimpleFileTransfer env err_first input delayMs output w)) output
  = Some (lines_text (map bufio.dropCR (file_lines content))) /\
  pr_trace (SimpleFileTransfer env err_first input delayMs output w)
  = Logged INFO (WritingOutputToFile output)
    :: line_events whole false 0 (map bufio.dropCR (file_lines content))
    ++ [Logged INFO (ReceivedLines (length (file_lines content))
                       (since env (S (length (file_lines content)))))].
Proof.
  intros Hfile Hfit Hne Hc Hnf. unfold SimpleFileTransfer.
  rewrite (ProcessLines_file _ _ _ _ _ Hne Hc).
  change (ReceiveLines ?r) with (recv_cases r). cbn [recv_cases].
  rewrite (SimpleFileTransfer_cases w wr content input delayMs err_first Hfile Hfit).
  rewrite process_loop_file_quiet; [| apply goes_on_lines | intros; apply Hnf].
  rewrite received_lines, !length_map. cbn [process_loop]. split; [reflexivity |].
  cbn [pr_world pr_trace].
  rewrite (file_content_append _ _ _ EmptyString) by apply file_content_created.
  split; [reflexivity |]. rewrite <- app_assoc. reflexivity.
Qed.

Lemma file_lines_lines_text ls :
  Forall (fun l => has_LF l = false) ls -> file_lines (lines_text ls) = ls.
Proof.
  induction 1 as [|l ls Hl _ IH]; [reflexivity |].
  cbn [lines_text]. now rewrite file_lines_line, IH.
Qed.

Lemma fits_with_CR ls :
  Forall (fun l => S (String.length l) < bufio.MaxScanTokenSize) ls ->
  Forall (fits bufio.MaxScanTokenSize) (map (fun l => l +:+ String CR EmptyString) ls).
Proof.
  induction 1 as [|l ls Hl _ IH]; simpl; constructor; [| exact IH].
  unfold fits. rewrite length_append. simpl.
  now rewrite Nat.add_1_r.
Qed.

(** ** The shutdown sequence *)

Lemma Inv_boot : Inv boot.
Proof.
  split; simpl; intros; try reflexivity; try apply disjoint_empty_l; try exact I.
  set_solver.
Qed.

(** A step that leaves the sessions, the wait group and the main goroutine
    where they are keeps the invariant, if the listener stays closed once it
    is. *)
Lemma Inv_same s s' :
  Inv s ->
  pc s' = pc s -> next_session s' = next_session s ->
  negotiated s' = negotiated s -> streaming s' = streaming s ->
  finished s' = finished s -> killed s' = killed s -> wg s' = wg s ->
  (listening s = false /\ served s = true -> listening s' = false /\ served s' = true) ->
  Inv s'.
Proof.
  intros [Hwg Hk Hns Hnf Hsf Hfk Hfresh Hclosed] Epc En Eneg Estr Efin Ekil Ewg Hl.
  assert (alive s' = alive s) as Ealive by (unfold alive; now rewrite Epc).
  split; rewrite ?Ealive, ?Epc, ?En, ?Eneg, ?Estr, ?Efin, ?Ekil, ?Ewg; auto.
  destruct (pc s); auto.
Qed.

Lemma Inv_step a s s' : Inv s -> step a s = Some s' -> Inv s'.
Proof.
  intros Hinv. pose proof Hinv as [Hwg Hk Hns Hnf Hsf Hfk Hfresh Hclosed]. unfold step.
  destruct (alive s) eqn:Halive; [simpl | discriminate].
  specialize (Hwg eq_refl). specialize (Hk eq_refl).
  destruct a as [| | | | |i|i| | | | |].
  - destruct (served s) eqn:Hs; [discriminate |]. intros [= <-].
    apply (Inv_same s); simpl; auto. intros [_ ?]. congruence.
  - destruct (served s) eqn:Hs; [discriminate |]. intros [= <-].
    apply (Inv_same s); simpl; auto; intros [? ?]; split; congruence.
  - destruct (listening s) eqn:Hl; [| discriminate]. intros [= <-].
    apply (Inv_same s); simpl; auto; intros [? ?]; split; congruence.
  - destruct (accepted s) as [| running]; [discriminate |]. intros [= <-].
    assert (next_session s ∉ negotiated s ∪ streaming s ∪ finished s ∪ killed s) as Hnew.
    { intros Hin. apply Hfresh in Hin. lia. }
    split; simpl.
    + intros _. exact Hwg.
    + intros _. exact Hk.
    + set_solver.
    + set_solver.
    + exact Hsf.
    + exact Hfk.
    + intros j Hj.
      destruct (decide (j = next_session s)) as [-> | Hne]; [lia |].
      assert (j ∈ negotiated s ∪ streaming s ∪ finished s ∪ killed s) as Hin by set_solver.
      apply Hfresh in Hin. lia.
    + exact Hclosed.
  - destruct (accepted s) as [| running]; [discriminate |]. intros [= <-].
    apply (Inv_same s); simpl; auto; intros [? ?]; split; congruence.
  - destruct (decide (i ∈ negotiated s)) as [Hi |]; [| discriminate]. intros [= <-].
    split; simpl.
    + intros _. rewrite size_union, size_singleton by set_solver. lia.
    + intros _. exact Hk.
    + set_solver.
    + set_solver.
    + set_solver.
    + exact Hfk.
    + intros j Hj. apply Hfresh. set_solver.
    + exact Hclosed.
  - destruct (decide (i ∈ streaming s)) as [Hi |]; [| discriminate]. intros [= <-].
    split; simpl.
    + intros _. rewrite Hwg.
      rewrite size_difference by set_solver. now rewrite size_singleton, Nat.sub_1_r.
    + intros _. exact Hk.
    + set_solver.
    + set_solver.
    + set_solver.
    + rewrite Hk. set_solver.
    + intros j Hj. apply Hfresh. set_solver.
    + exact Hclosed.
  - intros [= <-]. apply (Inv_same s); simpl; auto; intros [? ?]; split; congruence.
  - destruct (pc s) eqn:Hpc; try discriminate.
    destruct (signalled s); [| discriminate]. intros [= <-].
    split; simpl; auto.
  - destruct (pc s) eqn:Hpc; try discriminate. intros [= <-].
    split; simpl; auto.
  - destruct (pc s) eqn:Hpc; try discriminate.
    destruct (wg s =? 0); [| discriminate]. intros [= <-].
    split; simpl; auto.
  - destruct (pc s) eqn:Hpc; try discriminate. intros [= <-].
    split; simpl.
    + discriminate.
    + discriminate.
    + set_solver.
    + exact Hnf.
    + set_solver.
    + rewrite Hk. set_solver.
    + intros j Hj. apply Hfresh. set_solver.
    + exact Hclosed.
Qed.

Lemma run_app a b s :
  run (a ++ b) s = match run a s with Some s' => run b s' | None => None end.
Proof.
  revert s. induction a as [|x a IH]; intros s; simpl; [reflexivity |].
  destruct (step x s); [apply IH | reflexivity].
Qed.

Lemma Inv_run sched : forall s s', Inv s -> run sched s = Some s' -> Inv s'.
Proof.
  induction sched as [|a sched IH]; intros s s' Hinv; simpl.
  - now intros [= <-].
  - destruct (step a s) as [s1|] eqn:E; [| discriminate].
    apply IH. eapply Inv_step; eauto.
Qed.

(** ** The scenarios of the specification *)

(** Three lines, a delay of one millisecond: count 3 and the three lines in
    the sink. *)
Example scenario_three_lines :
  result_of (SimpleFileTransfer steady false "lines.txt" 1 "out.txt"
               (mkWorld three_lines_fs ""))
  = Some (3, None) /\
  file_content (pr_world (SimpleFileTransfer steady false "lines.txt" 1 "out.txt"
                            (mkWorld three_lines_fs ""))) "out.txt"
  = Some ("Line 1" +:+ newline +:+ "Line 2" +:+ newline +:+ "Line 3" +:+ newline).
Proof. split; vm_compute; reflexivity. Qed.

(** No line, then the error "disk full": count 0 and that error. *)
Example scenario_disk_full :
  result_of (ProcessLines steady
               (mkMockLineReceiver [] (Some (errors_New "disk full")) 0 false)
               "" (mkWorld ∅ ""))
  = Some (0, Some (errors_New "disk full")).
Proof. reflexivity. Qed.

(** Two lines, then the end-of-stream sentinel: count 2 and nil. *)
Example scenario_two_lines_then_EOF :
  result_of (ProcessLines steady
               (mkMockLineReceiver ["Line 1"; "Line 2"] (Some io_EOF) 0 false)
               "" (mkWorld ∅ ""))
  = Some (2, None).
Proof. reflexivity. Qed.

(** * The claims *)

(** ** C1: a failed write of the k-th line *)

(** C1, as the code has it. When the write of the k-th received line to the
    output file fails, ProcessLines returns the write error together with the
    line count k (the line whose write failed has been counted); the file
    holds the k-1 lines written before it, each followed by its newline, and
    after them only what the failed write itself left of the k-th line; and
    the run has logged the k-1 lines and the failure. When the sink is
    standard output the result of the write is dropped: the failing write
    neither ends the run nor is returned; the run goes on to the lines that
    follow and, when the line channel is closed after them, returns their
    full count and nil, the first k writes to standard output being the k-1
    lines and what the failed write left. *)
Theorem C1_failed_write_is_counted {R} `{LineReceiver R} env (receiver : R)
    output w pre line rest k written err :
  ReceiveLines receiver = pre ++ RecvLine line :: rest ->
  Forall (fun x => goes_on x = true) pre ->
  k = S (length (received pre)) ->
  (forall j, j < k -> write_fault env j = None) ->
  write_fault env k = Some (written, err) ->
  (output <> EmptyString ->
   forall fs', os_Create (w_fs w) output = inr fs' ->
   result_of (ProcessLines env receiver output w) = Some (k, Some err) /\
   file_content (pr_world (ProcessLines env receiver output w)) output
   = Some (lines_text (received pre) +:+ take_bytes written (line +:+ newline)) /\
   pr_trace (ProcessLines env receiver output w)
   = Logged INFO (WritingOutputToFile output)
     :: line_events whole false 0 (received pre)
     ++ [Logged ERROR (FailedToWriteOutputFile err)]) /\
  (output = EmptyString ->
   forall more rest',
   rest = more ++ LineChanClosed :: rest' ->
   Forall (fun x => goes_on x = true) more ->
   result_of (ProcessLines env receiver output w)
   = Some (k + length (received more), None) /\
   take k (printed (pr_trace (ProcessLines env receiver output w)))
   = map (fun l => l +:+ newline) (received pre)
     ++ [take_bytes written (line +:+ newline)]).
Proof.
  intros Hcases Hq -> Hok Hfail. split.
  - intros Hne fs' Hc.
    rewrite (ProcessLines_file _ _ _ _ _ Hne Hc), Hcases.
    rewrite process_loop_file_quiet; [| assumption | intros j Hj; apply Hok; lia].
    cbn [process_loop]. unfold File_WriteString.
    replace (S (0 + length (received pre))) with (S (length (received pre))) by lia.
    rewrite Hfail. unfold result_of. cbn [pr_outcome pr_world pr_trace].
    split; [reflexivity |]. split.
    + rewrite append_file_append.
      rewrite (file_content_append _ _ _ EmptyString) by apply file_content_created.
      reflexivity.
    + rewrite <- app_assoc. reflexivity.
  - intros -> more rest' -> Hmore.
    unfold ProcessLines. cbn [String.eqb]. rewrite Hcases.
    replace (pre ++ RecvLine line :: more ++ LineChanClosed :: rest')
      with ((pre ++ RecvLine line :: more) ++ LineChanClosed :: rest')
      by (rewrite <- app_assoc; reflexivity).
    rewrite process_loop_stdout_quiet
      by (apply Forall_app; split; [exact Hq | constructor; [reflexivity | exact Hmore]]).
    cbn [process_loop result_of pr_outcome pr_trace].
    rewrite received_app. cbn [received]. rewrite length_app. cbn [length].
    split; [f_equal; f_equal; lia |].
    rewrite line_events_app. cbn [line_events]. rewrite Nat.add_0_l.
    rewrite (line_events_ext (kept env) whole true (received pre) 0)
      by (intros j data Hj; unfold kept, whole; rewrite Hok by lia; reflexivity).
    cbn [app printed]. rewrite !printed_app, printed_whole. cbn [app printed].
    unfold kept at 1. rewrite Hfail.
    rewrite <- app_assoc. cbn [app].
    replace (S (length (received pre)))
      with (length (map (fun l => l +:+ newline) (received pre)
                    ++ [take_bytes written (line +:+ newline)]))
      by (rewrite length_app, length_map; simpl; lia).
    match goal with
    | |- take _ (?A ++ ?x :: ?k) = _ =>
        change (A ++ x :: k) with (A ++ ([x] ++ k)); rewrite (app_assoc A [x] k)
    end.
    apply take_app_length.
Qed.

Lemma C1_failed_write_is_counted_witness :
  (result_of (ProcessLines full_disk (mkMockLineReceiver ["Line 1"; "Line 2"] None 0 false)
                "out.txt" (mkWorld ∅ ""))
   = Some (1, Some (PathError "write" "out.txt" ENOSPC)) /\
   file_content (pr_world (ProcessLines full_disk
                             (mkMockLineReceiver ["Line 1"; "Line 2"] None 0 false)
                             "out.txt" (mkWorld ∅ ""))) "out.txt"
   = Some (lines_text [] +:+ take_bytes 0 ("Line 1" +:+ newline))) /\
  (result_of (ProcessLines full_disk (mkMockLineReceiver ["Line 1"; "Line 2"] None 0 false)
                "" (mkWorld ∅ ""))
   = Some (1 + length (received [RecvLine "Line 2"]), None) /\
   take 1 (printed (pr_trace (ProcessLines full_disk
                                (mkMockLineReceiver ["Line 1"; "Line 2"] None 0 false)
                                "" (mkWorld ∅ ""))))
   = [take_bytes 0 ("Line 1" +:+ newline)]).
Proof.
  split.
  - destruct (C1_failed_write_is_counted full_disk
                (mkMockLineReceiver ["Line 1"; "Line 2"] None 0 false) "out.txt"
                (mkWorld ∅ "") [] "Line 1" [RecvLine "Line 2"; LineChanClosed] 1 0
                (PathError "write" "out.txt" ENOSPC)) as [Hfile _].
    + reflexivity.
    + constructor.
    + reflexivity.
    + intros j Hj. assert (j = 0) as -> by lia. reflexivity.
    + reflexivity.
    + destruct (Hfile ltac:(discriminate) (<["out.txt" := RegularFile true ""]> ∅) eq_refl)
        as (Hres & Hcontent & _).
      split; [exact Hres | exact Hcontent].
  - destruct (C1_failed_write_is_counted full_disk
                (mkMockLineReceiver ["Line 1"; "Line 2"] None 0 false) ""
                (mkWorld ∅ "") [] "Line 1" [RecvLine "Line 2"; LineChanClosed] 1 0
                (PathError "write" "out.txt" ENOSPC)) as [_ Hstdout].
    + reflexivity.
    + constructor.
    + reflexivity.
    + intros j Hj. assert (j = 0) as -> by lia. reflexivity.
    + reflexivity.
    + apply (Hstdout eq_refl [RecvLine "Line 2"] []); [reflexivity |].
      constructor; [reflexivity | constructor].
Defined.

(** C1 as stated fails: the write of the first line (k = 1) fails, and the
    count returned is 1, not k - 1 = 0. *)
Lemma C1_count_is_not_k_minus_1 :
  write_fault full_disk 1 = Some (0, PathError "write" "out.txt" ENOSPC) /\
  result_of (ProcessLines full_disk (mkMockLineReceiver ["Line 1"] None 0 false)
               "out.txt" (mkWorld ∅ ""))
  = Some (1, Some (PathError "write" "out.txt" ENOSPC)) /\
  1 <> 1 - 1.
Proof.
  split; [reflexivity |].
  split; [vm_compute; reflexivity | lia].
Qed.

(** ** C2: order and completeness of a transfer *)

(** C2, as the code has it. For every file whose lines are all shorter than
    65536 bytes, and every delay, StreamFile sends every line of the file in
    file order, each without its terminal carriage return if it has one,
    sleeps once after each, and returns nil; ProcessLines, fed from it,
    returns the number of lines of the file and nil. When the sink is a file
    that can be created and takes every write, the file holds exactly these
    lines, each followed by one newline, and ProcessLines writes nothing but
    its records to the two streams. When the sink is standard output and takes
    every write, ProcessLines writes there, in this order, its first record,
    each line with its newline followed by the record of the line, and its
    last record: standard output holds the lines in file order, with the
    records of the logger between them. *)
Theorem C2_lines_arrive_in_order env err_first input delayMs output w wr content :
  w_fs w !! input = Some (RegularFile wr content) ->
  Forall (fits bufio.MaxScanTokenSize) (file_lines content) ->
  (run_end (StreamFile (w_fs w) (mkChannelWriter [] false) input delayMs) = Returns None /\
   sent_lines (run_effects (StreamFile (w_fs w) (mkChannelWriter [] false) input delayMs))
   = map bufio.dropCR (file_lines content) /\
   sleeps (run_effects (StreamFile (w_fs w) (mkChannelWriter [] false) input delayMs))
   = repeat (Duration_of_ms delayMs) (length (file_lines content))) /\
  (output = EmptyString ->
   result_of (SimpleFileTransfer env err_first input delayMs output w)
   = Some (length (file_lines content), None) /\
   (no_write_fault env ->
    pr_trace (SimpleFileTransfer env err_first input delayMs output w)
    = Logged INFO WritingOutputToStdout
      :: line_events whole true 0 (map bufio.dropCR (file_lines content))
      ++ [Logged INFO (ReceivedLines (length (file_lines content))
                         (since env (S (length (file_lines content)))))] /\
    printed (pr_trace (SimpleFileTransfer env err_first input delayMs output w))
    = map (fun l => l +:+ newline) (map bufio.dropCR (file_lines content)))) /\
  (output <> EmptyString -> output <> input ->
   (exists fs', os_Create (w_fs w) output = inr fs') ->
   no_write_fault env ->
   result_of (SimpleFileTransfer env err_first input delayMs output w)
   = Some (length (file_lines content), None) /\
   file_content (pr_world (SimpleFileTransfer env err_first input delayMs output w)) output
   = Some (lines_text (map bufio.dropCR (file_lines content))) /\
   printed (pr_trace (SimpleFileTransfer env err_first input delayMs output w)) = []).
Proof.
  intros Hfile Hfit. split; [| split].
  - now apply (StreamFile_into_channel _ wr).
  - intros ->.
    destruct (SimpleFileTransfer_stdout env err_first input delayMs w wr content Hfile Hfit)
      as (Hres & _ & Htr).
    split; [exact Hres |]. intros Hnf.
    rewrite Htr, (line_events_no_fault env true Hnf). split; [reflexivity |].
    cbn [printed]. rewrite printed_app, printed_whole. simpl. now rewrite app_nil_r.
  - intros Hne _ [fs' Hc] Hnf.
    destruct (SimpleFileTransfer_file env err_first input delayMs output w wr content fs'
                Hfile Hfit Hne Hc Hnf) as (Hres & Hcontent & Htr).
    split; [exact Hres |]. split; [exact Hcontent |].
    rewrite Htr. cbn [printed]. rewrite printed_app.
    destruct (printed_line_events whole 0 (map bufio.dropCR (file_lines content)))
      as [_ Hnone].
    now rewrite Hnone.
Qed.

Lemma C2_lines_arrive_in_order_witness :
  (result_of (SimpleFileTransfer steady false "test-stream.txt" 1 "" (mkWorld test_fs ""))
   = Some (length (file_lines test_file), None) /\
   printed (pr_trace (SimpleFileTransfer steady false "test-stream.txt" 1 ""
                        (mkWorld test_fs "")))
   = map (fun l => l +:+ newline) (map bufio.dropCR (file_lines test_file))) /\
  (result_of (SimpleFileTransfer steady false "test-stream.txt" 1 "out.txt"
                (mkWorld test_fs ""))
   = Some (length (file_lines test_file), None) /\
   file_content (pr_world (SimpleFileTransfer steady false "test-stream.txt" 1 "out.txt"
                             (mkWorld test_fs ""))) "out.txt"
   = Some (lines_text (map bufio.dropCR (file_lines test_file)))).
Proof.
  assert (Forall (fits bufio.MaxScanTokenSize) (file_lines test_file)) as Hfit.
  { repeat (constructor; [apply Nat.ltb_lt; vm_compute; reflexivity |]).
    constructor. }
  assert (no_write_fault steady) as Hnf by (intros k; reflexivity).
  split.
  - destruct (C2_lines_arrive_in_order steady false "test-stream.txt" 1 ""
                (mkWorld test_fs "") true test_file eq_refl Hfit) as (_ & Hout & _).
    destruct (Hout eq_refl) as [Hres Htr]. destruct (Htr Hnf) as [_ Hprinted].
    split; [exact Hres | exact Hprinted].
  - destruct (C2_lines_arrive_in_order steady false "test-stream.txt" 1 "out.txt"
                (mkWorld test_fs "") true test_file eq_refl Hfit) as (_ & _ & Hout).
    destruct Hout as (Hres & Hcontent & _).
    + discriminate.
    + discriminate.
    + eexists. reflexivity.
    + exact Hnf.
    + split; [exact Hres | exact Hcontent].
Defined.

(** C2 as stated fails on a file with a carriage return before its newline:
    the line of the file is "a" followed by a carriage return, and the sink
    receives "a" and a newline. *)
Lemma C2_carriage_return_is_lost :
  file_lines ("a" +:+ String CR newline) = ["a" +:+ String CR EmptyString] /\
  result_of (SimpleFileTransfer steady false
               "crlf.txt" 0 "out.txt" (mkWorld crlf_fs ""))
  = Some (1, None) /\
  file_content (pr_world (SimpleFileTransfer steady
                            false "crlf.txt" 0 "out.txt" (mkWorld crlf_fs ""))) "out.txt"
  = Some ("a" +:+ newline) /\
  "a" +:+ newline <> lines_text (file_lines ("a" +:+ String CR newline)).
Proof.
  split; [reflexivity |]. split; [vm_compute; reflexivity |].
  split; [vm_compute; reflexivity | discriminate].
Qed.

(** ** C3: a panic while streaming *)

(** C3, as the code has it. StreamFile never ends in a panic. When the
    writer takes the first lines and its send panics on the next one, the
    body of StreamFile unwinds; the deferred function recovers the panic and
    records it with [logger.Error], and StreamFile returns nil: its effects
    are the records and sleeps of the lines sent before and the record of the
    recovered panic. *)
Theorem C3_panic_is_recovered_and_logged {W} `{LineWriter W} fs wr content
    (writer : W) filename delayMs pre l post w_k w' r :
  fs !! filename = Some (RegularFile wr content) ->
  file_lines content = pre ++ l :: post ->
  Forall (fits bufio.MaxScanTokenSize) (pre ++ [l]) ->
  deliver (map bufio.dropCR pre) writer = Some w_k ->
  SendText (bufio.dropCR l) w_k = (SendPanic r, w') ->
  (forall fs0 (writer0 : W) filename0 delayMs0,
     exists err, run_end (StreamFile fs0 writer0 filename0 delayMs0) = Returns err) /\
  run_end (StreamFile_body fs writer filename delayMs) = Panics r /\
  run_end (StreamFile fs writer filename delayMs) = Returns None /\
  run_writer (StreamFile fs writer filename delayMs) = w' /\
  run_effects (StreamFile fs writer filename delayMs)
  = sent_effects delayMs 0 (map bufio.dropCR pre) ++ [Log ERROR (RecoveredFromPanic r)].
Proof.
  intros Hfile Hlines Hfit Hd Hsend.
  split.
  { intros fs0 writer0 filename0 delayMs0. unfold StreamFile.
    destruct (run_end (StreamFile_body fs0 writer0 filename0 delayMs0)) as [err | r0] eqn:E.
    - rewrite E. eauto.
    - simpl. eauto. }
  apply Forall_app in Hfit as [Hpre Hl]. inversion Hl as [|? ? Hl' _]; subst.
  unfold StreamFile. rewrite (StreamFile_body_lines _ _ _ _ _ _ Hfile), Hlines.
  rewrite (send_lines_deliver _ _ _ _ _ _ _ _ _ Hpre Hd).
  cbn [send_lines].
  destruct (Nat.leb_spec bufio.MaxScanTokenSize (String.length l)); [unfold fits in Hl'; lia |].
  rewrite Hsend. cbn [run_end run_writer run_effects app]. auto.
Qed.

Lemma C3_panic_is_recovered_and_logged_witness :
  run_end (StreamFile test_fs (mkChannelWriter [] true) "test-stream.txt" 1) = Returns None /\
  run_effects (StreamFile test_fs (mkChannelWriter [] true) "test-stream.txt" 1)
  = [Log ERROR (RecoveredFromPanic "send on closed channel")].
Proof.
  assert (Forall (fits bufio.MaxScanTokenSize) ([] ++ ["Line 1"])) as Hfit.
  { constructor; [apply Nat.ltb_lt; vm_compute; reflexivity | constructor]. }
  destruct (C3_panic_is_recovered_and_logged test_fs true test_file
              (mkChannelWriter [] true) "test-stream.txt" 1 [] "Line 1"
              ["Line 2"; "Line 3";
               "This is a longer line with some special characters: !@#$%^&*()"]
              (mkChannelWriter [] true) (mkChannelWriter [] true)
              "send on closed channel" eq_refl eq_refl Hfit eq_refl eq_refl)
    as (_ & _ & Hend & _ & Hfx).
  split; [exact Hend | exact Hfx].
Defined.

(** C3 as stated fails: the send on a closed channel panics, and StreamFile
    returns nil, not an error. *)
Lemma C3_recovered_panic_returns_nil :
  run_end (StreamFile_body test_fs (mkChannelWriter [] true) "test-stream.txt" 1)
  = Panics "send on closed channel" /\
  run_end (StreamFile test_fs (mkChannelWriter [] true) "test-stream.txt" 1)
  = Returns None.
Proof. split; vm_compute; reflexivity. Qed.

(** ** C4: the statuses of the [/offer] endpoint *)

(** C4, as the code has it. The handler answers 405 when the method is not
    POST; 400 when the body cannot be read or parsed, 500 when a step of the
    negotiation after parsing fails, both with a text that ends in the
    error's message; and 200 with the serialized answer when every step
    succeeds and gathering completes (an answer that cannot be encoded leaves
    the body empty). It gives no response only while gathering does not
    complete. *)
Theorem C4_offer_statuses (t : Transport) (r : http.Request) :
  match h_response (offer_handler t r) with
  | Some resp =>
      (http.Method r <> http.MethodPost /\
       resp = http.Error "Method not allowed" http.StatusMethodNotAllowed) \/
      (http.Method r = http.MethodPost /\
       exists msg err, malformed t r = Some (msg, err) /\
                       resp = http.Error (msg +:+ Error err) http.StatusBadRequest) \/
      (http.Method r = http.MethodPost /\
       exists offer msg err,
         parsed t r = Some offer /\ negotiation_failure t offer = Some (msg, err) /\
         resp = http.Error (msg +:+ Error err) http.StatusInternalServerError) \/
      (http.Method r = http.MethodPost /\
       exists offer,
         parsed t r = Some offer /\ negotiation_failure t offer = None /\
         GatheringComplete t = true /\
         http.StatusCode resp = http.StatusOK /\
         http.ContentType resp = "application/json" /\
         http.ResponseBody resp
         = match json_Encode t (LocalDescription t) with
           | inr body => body +:+ newline
           | inl _ => EmptyString
           end)
  | None =>
      http.Method r = http.MethodPost /\
      exists offer, parsed t r = Some offer /\ negotiation_failure t offer = None /\
                    GatheringComplete t = false
  end.
Proof.
  unfold offer_handler, malformed, parsed, negotiation_failure.
  destruct (String.eqb_spec (http.Method r) http.MethodPost) as [Hm | Hm]; simpl;
    [| left; split; [assumption | reflexivity]].
  destruct (http.Body r) as [err | offerBytes].
  { right. left. split; [assumption |]. do 2 eexists. split; reflexivity. }
  destruct (json_Unmarshal t offerBytes) as [err | offer].
  { right. left. split; [assumption |]. do 2 eexists. split; reflexivity. }
  destruct (NewPeerConnection t) as [err |].
  { right. right. left. split; [assumption |]. exists offer. do 2 eexists. repeat split. }
  destruct (SetRemoteDescription t offer) as [err |] eqn:Eremote.
  { right. right. left. split; [assumption |]. exists offer. rewrite Eremote.
    do 2 eexists. repeat split. }
  destruct (CreateDataChannel t) as [err |].
  { right. right. left. split; [assumption |]. exists offer. rewrite Eremote.
    do 2 eexists. repeat split. }
  destruct (CreateAnswer t) as [err | answer].
  { right. right. left. split; [assumption |]. exists offer. rewrite Eremote.
    do 2 eexists. repeat split. }
  destruct (SetLocalDescription t answer) as [err |].
  { right. right. left. split; [assumption |]. exists offer. rewrite Eremote.
    do 2 eexists. repeat split. }
  destruct (GatheringComplete t); simpl.
  - destruct (json_Encode t (LocalDescription t)); simpl;
      right; right; right; (split; [exact Hm |]); exists offer; rewrite Eremote;
      repeat split.
  - split; [exact Hm |]. exists offer. rewrite Eremote. repeat split.
Qed.

(** C4 as stated fails for a request that is not a POST: the status is 405
    (method not allowed), not 400. *)
Lemma C4_wrong_method_is_405 :
  h_response (offer_handler good_transport (http.mkRequest "GET" (inr "")))
  = Some (http.Error "Method not allowed" 405) /\
  http.StatusCode (http.Error "Method not allowed" 405) <> http.StatusBadRequest.
Proof. split; [reflexivity | discriminate]. Qed.

(** ** C5: the end-of-stream sentinel and a clean closure *)

(** C5. A source that delivers M lines and then puts [io.EOF] on the error
    channel, and a source that delivers the same M lines and then closes the
    line channel (however often the closed error channel is selected first),
    give the same count, the same error and the same sink; when the sink takes
    every write, that result is count M and a nil error. *)
Theorem C5_EOF_is_clean_closure {R1 R2} `{LineReceiver R1} `{LineReceiver R2}
    env (eof : R1) (closing : R2) output w ls polls rest1 rest2 :
  ReceiveLines eof = map RecvLine ls ++ RecvErr (Some io_EOF) :: rest1 ->
  ReceiveLines closing
  = map RecvLine ls ++ repeat ErrChanClosed polls ++ LineChanClosed :: rest2 ->
  result_of (ProcessLines env eof output w)
  = result_of (ProcessLines env closing output w) /\
  pr_world (ProcessLines env eof output w)
  = pr_world (ProcessLines env closing output w) /\
  (output = EmptyString \/
   (no_write_fault env /\ exists fs', os_Create (w_fs w) output = inr fs') ->
   result_of (ProcessLines env eof output w) = Some (length ls, None)).
Proof.
  intros E1 E2. unfold ProcessLines. rewrite E1, E2.
  destruct (String.eqb_spec output "") as [-> | Hne].
  - destruct (process_loop_EOF_like_close env None ls polls rest1 rest2 0 0 w
                [Logged INFO WritingOutputToStdout]) as [Hr Hw].
    repeat split; try assumption.
    intros _. rewrite process_loop_stdout_quiet by apply goes_on_lines.
    rewrite received_lines. reflexivity.
  - destruct (os_Create (w_fs w) output) as [err | fs'] eqn:Hc.
    + repeat split. intros [? | [_ [? ?]]]; [contradiction | discriminate].
    + destruct (process_loop_EOF_like_close env (Some output) ls polls rest1 rest2 0 0
                  (mkWorld fs' (w_stdout w)) [Logged INFO (WritingOutputToFile output)])
        as [Hr Hw].
      repeat split; try assumption.
      intros [? | [Hnf _]]; [contradiction |].
      rewrite process_loop_file_quiet; [| apply goes_on_lines | intros; apply Hnf].
      rewrite received_lines. reflexivity.
Qed.

Lemma C5_EOF_is_clean_closure_witness :
  result_of (ProcessLines steady
               (mkMockLineReceiver ["Line 1"; "Line 2"] (Some io_EOF) 0 false) "" (mkWorld ∅ ""))
  = result_of (ProcessLines steady
                 (mkMockLineReceiver ["Line 1"; "Line 2"] None 3 false) "" (mkWorld ∅ "")) /\
  pr_world (ProcessLines steady
              (mkMockLineReceiver ["Line 1"; "Line 2"] (Some io_EOF) 0 false) "" (mkWorld ∅ ""))
  = pr_world (ProcessLines steady
                (mkMockLineReceiver ["Line 1"; "Line 2"] None 3 false) "" (mkWorld ∅ "")) /\
  result_of (ProcessLines steady
               (mkMockLineReceiver ["Line 1"; "Line 2"] (Some io_EOF) 0 false) "" (mkWorld ∅ ""))
  = Some (2, None).
Proof.
  destruct (C5_EOF_is_clean_closure steady
              (mkMockLineReceiver ["Line 1"; "Line 2"] (Some io_EOF) 0 false)
              (mkMockLineReceiver ["Line 1"; "Line 2"] None 3 false)
              "" (mkWorld ∅ "") ["Line 1"; "Line 2"] 3 [] [] eq_refl eq_refl)
    as (Hr & Hw & Hc).
  split; [exact Hr |]. split; [exact Hw |]. apply Hc. left. reflexivity.
Defined.

(** ** C6: where the lines go *)

(** C6. With an empty [output] the sink is standard output: the run says so
    in its first record, writes there each line it takes from the channel
    followed by its newline, and leaves the file system alone. With a path
    that can be created, the file at that path is created or truncated: the
    run says so in its first record and, if no write fails, the file holds
    exactly the lines taken from the channel, whatever it held before; all
    other paths are left alone and nothing but records goes to the two
    streams. When the creation fails, as it does for a directory,
    ProcessLines logs the error and returns it with count zero, for every
    receiver alike, and the world is as it was. *)
Theorem C6_sink_resolution {R} `{LineReceiver R} env (receiver : R) output w :
  (output = EmptyString ->
   w_fs (pr_world (ProcessLines env receiver output w)) = w_fs w /\
   exists tail,
     pr_trace (ProcessLines env receiver output w)
     = Logged INFO WritingOutputToStdout
       :: line_events (kept env) true 0 (consumed (ReceiveLines receiver)) ++ tail /\
     printed tail = []) /\
  (output <> EmptyString ->
   forall fs', os_Create (w_fs w) output = inr fs' ->
   no_write_fault env ->
   file_content (pr_world (ProcessLines env receiver output w)) output
   = Some (lines_text (consumed (ReceiveLines receiver))) /\
   (forall other, other <> output ->
      w_fs (pr_world (ProcessLines env receiver output w)) !! other = w_fs w !! other) /\
   (exists tail,
      pr_trace (ProcessLines env receiver output w)
      = Logged INFO (WritingOutputToFile output) :: tail) /\
   printed (pr_trace (ProcessLines env receiver output w)) = []) /\
  (output <> EmptyString ->
   forall err, os_Create (w_fs w) output = inl err ->
   ProcessLines env receiver output w
   = mkProcessRun (Done 0 0 (Some err)) w [Logged ERROR (FailedToCreateOutputFile err)]) /\
  (output <> EmptyString ->
   w_fs w !! output = Some Directory ->
   ProcessLines env receiver output w
   = mkProcessRun (Done 0 0 (Some (PathError "open" output EISDIR))) w
       [Logged ERROR (FailedToCreateOutputFile (PathError "open" output EISDIR))]).
Proof.
  split; [| split; [| split]].
  - intros ->. unfold ProcessLines. cbn [String.eqb].
    destruct (process_loop_consumed_stdout env (ReceiveLines receiver) 0 0 w
                [Logged INFO WritingOutputToStdout]) as (Hfs & tail & Htr & Htail).
    split; [exact Hfs |]. exists tail. split; [exact Htr | exact Htail].
  - intros Hne fs' Hc Hnf.
    rewrite (ProcessLines_file _ _ _ _ _ Hne Hc).
    destruct (process_loop_consumed_file env output (ReceiveLines receiver) Hnf 0 0
                (mkWorld (<[output := RegularFile true EmptyString]> (w_fs w)) (w_stdout w))
                [Logged INFO (WritingOutputToFile output)]
                EmptyString (file_content_created _ _ _))
      as (Hfile & Hother & tail & Htr & Htail).
    split; [exact Hfile |]. split.
    { intros other Hoth. rewrite Hother by assumption. simpl. now rewrite lookup_insert_ne. }
    split; [eexists; rewrite Htr; reflexivity |].
    rewrite Htr. cbn [app printed]. rewrite printed_app, Htail.
    destruct (printed_line_events whole 0 (consumed (ReceiveLines receiver))) as [_ Hnone].
    now rewrite Hnone.
  - intros Hne err Hc. unfold ProcessLines.
    destruct (String.eqb_spec output ""); [contradiction |]. now rewrite Hc.
  - intros Hne Hdir. unfold ProcessLines, os_Create.
    destruct (String.eqb_spec output ""); [contradiction |]. now rewrite Hdir.
Qed.

Lemma C6_sink_resolution_witness :
  (w_fs (pr_world (ProcessLines steady (mkMockLineReceiver ["Line 1"] None 0 false) ""
                     (mkWorld {[ "/" := Directory ]} "")))
   = {[ "/" := Directory ]} /\
   exists tail,
     pr_trace (ProcessLines steady (mkMockLineReceiver ["Line 1"] None 0 false) ""
                 (mkWorld {[ "/" := Directory ]} ""))
     = Logged INFO WritingOutputToStdout
       :: line_events (kept steady) true 0 ["Line 1"] ++ tail /\
     printed tail = []) /\
  file_content (pr_world (ProcessLines steady (mkMockLineReceiver ["Line 1"] None 0 false)
                            "out.txt"
                            (mkWorld {[ "out.txt" := RegularFile true "old" ]} "")))
               "out.txt"
  = Some (lines_text ["Line 1"]) /\
  ProcessLines steady (mkMockLineReceiver ["Line 1"] None 0 false) "/"
    (mkWorld {[ "/" := Directory ]} "")
  = mkProcessRun (Done 0 0 (Some (PathError "open" "/" EISDIR)))
      (mkWorld {[ "/" := Directory ]} "")
      [Logged ERROR (FailedToCreateOutputFile (PathError "open" "/" EISDIR))].
Proof.
  split; [| split].
  - destruct (C6_sink_resolution steady (mkMockLineReceiver ["Line 1"] None 0 false) ""
                (mkWorld {[ "/" := Directory ]} "")) as [Hstdout _].
    exact (Hstdout eq_refl).
  - destruct (C6_sink_resolution steady (mkMockLineReceiver ["Line 1"] None 0 false)
                "out.txt" (mkWorld {[ "out.txt" := RegularFile true "old" ]} ""))
      as (_ & Hfile & _).
    destruct (Hfile ltac:(discriminate)
                (<["out.txt" := RegularFile true ""]> {[ "out.txt" := RegularFile true "old" ]})
                eq_refl ltac:(intros k; reflexivity)) as [Hcontent _].
    exact Hcontent.
  - destruct (C6_sink_resolution steady (mkMockLineReceiver ["Line 1"] None 0 false) "/"
                (mkWorld {[ "/" := Directory ]} "")) as (_ & _ & _ & Hdir).
    apply Hdir; [discriminate | reflexivity].
Defined.

(** ** C7: a failed send *)

(** C7. If the writer takes the first k-1 lines and its send fails on the
    k-th, StreamFile returns that error at once: its effects are the records
    and sleeps of the k-1 lines sent, in file order, and the record of the
    failure, and nothing after; the writer is left as the failed send left
    it. *)
Theorem C7_failed_send_stops_the_stream {W} `{LineWriter W} fs wr content
    (writer : W) filename delayMs k pre l post w_k w' e :
  fs !! filename = Some (RegularFile wr content) ->
  file_lines content = pre ++ l :: post ->
  k = S (length pre) ->
  Forall (fits bufio.MaxScanTokenSize) (pre ++ [l]) ->
  deliver (map bufio.dropCR pre) writer = Some w_k ->
  SendText (bufio.dropCR l) w_k = (SendErr e, w') ->
  run_end (StreamFile fs writer filename delayMs) = Returns (Some e) /\
  run_writer (StreamFile fs writer filename delayMs) = w' /\
  sent_lines (run_effects (StreamFile fs writer filename delayMs))
  = map bufio.dropCR pre /\
  run_effects (StreamFile fs writer filename delayMs)
  = sent_effects delayMs 0 (map bufio.dropCR pre)
    ++ [Log ERROR (FailedToSendLine k e)].
Proof.
  intros Hfile Hlines -> Hfit Hd Hsend.
  apply Forall_app in Hfit as [Hpre Hl]. inversion Hl as [|? ? Hl' _]; subst.
  unfold StreamFile. rewrite (StreamFile_body_lines _ _ _ _ _ _ Hfile), Hlines.
  rewrite (send_lines_deliver _ _ _ _ _ _ _ _ _ Hpre Hd).
  cbn [send_lines].
  destruct (Nat.leb_spec bufio.MaxScanTokenSize (String.length l)); [unfold fits in Hl'; lia |].
  rewrite Hsend. cbn [run_end run_writer run_effects app].
  repeat split.
  rewrite sent_lines_app, sent_lines_sent_effects. simpl. now rewrite app_nil_r.
Qed.

Lemma C7_failed_send_stops_the_stream_witness :
  run_end (StreamFile test_fs (mkMockLineWriter [] (Some os_ErrInvalid)) "test-stream.txt" 1)
  = Returns (Some os_ErrInvalid) /\
  run_writer (StreamFile test_fs (mkMockLineWriter [] (Some os_ErrInvalid)) "test-stream.txt" 1)
  = mkMockLineWriter [] (Some os_ErrInvalid) /\
  sent_lines (run_effects (StreamFile test_fs (mkMockLineWriter [] (Some os_ErrInvalid))
                             "test-stream.txt" 1))
  = map bufio.dropCR [] /\
  run_effects (StreamFile test_fs (mkMockLineWriter [] (Some os_ErrInvalid))
                 "test-stream.txt" 1)
  = sent_effects 1 0 (map bufio.dropCR []) ++ [Log ERROR (FailedToSendLine 1 os_ErrInvalid)].
Proof.
  apply (C7_failed_send_stops_the_stream test_fs true test_file
           (mkMockLineWriter [] (Some os_ErrInvalid)) "test-stream.txt" 1 1
           [] "Line 1"
           ["Line 2"; "Line 3";
            "This is a longer line with some special characters: !@#$%^&*()"]
           (mkMockLineWriter [] (Some os_ErrInvalid))
           (mkMockLineWriter [] (Some os_ErrInvalid)) os_ErrInvalid).
  - reflexivity.
  - reflexivity.
  - reflexivity.
  - constructor; [| constructor]. apply Nat.ltb_lt. vm_compute. reflexivity.
  - reflexivity.
  - reflexivity.
Defined.

(** ** C8: shutdown *)

(** C8 fails on the code. [wg.Add(1)] runs in the [OnOpen] callback, and
    nothing orders a callback before [wg.Wait]. In the first schedule a data
    channel is created before the signal and opens after the wait has
    returned; in the second the handler of a request taken before the signal
    is still running when the server is closed, and creates its data channel
    after the wait has returned. In both the goroutine of session 0 is
    registered with the wait group ([wg] is 1) and inside streamFile when the
    process exits: the exit cuts it off. *)
Lemma C8_late_session_is_cut_off :
  run [Listen; Accept; Offer; Signal; Receive; CloseServer; Wait; Open 0; Exit] boot
  = Some (mkServer Exited false true false 0 1 ∅ ∅ ∅ {[0]} 1) /\
  run [Listen; Accept; Signal; Receive; CloseServer; Wait; Offer; Open 0; Exit] boot
  = Some (mkServer Exited false true false 0 1 ∅ ∅ ∅ {[0]} 1).
Proof. split; vm_compute; reflexivity. Qed.

(** ** C9: a line the scanner cannot hold *)

(** C9. When the file has a line longer than 65536 bytes, no writer is ever
    sent that line or a later one; and when the writer takes the lines before
    it (which all fit), StreamFile sends exactly these and returns the
    scanner's error, [bufio.ErrTooLong]. *)
Theorem C9_long_line_ends_the_stream {W} `{LineWriter W} fs wr content
    (writer : W) filename delayMs pre l post :
  fs !! filename = Some (RegularFile wr content) ->
  file_lines content = pre ++ l :: post ->
  bufio.MaxScanTokenSize < String.length l ->
  sent_lines (run_effects (StreamFile fs writer filename delayMs))
    `prefix_of` map bufio.dropCR pre /\
  (forall w',
     Forall (fits bufio.MaxScanTokenSize) pre ->
     deliver (map bufio.dropCR pre) writer = Some w' ->
     run_end (StreamFile fs writer filename delayMs) = Returns (Some bufio_ErrTooLong) /\
     run_writer (StreamFile fs writer filename delayMs) = w' /\
     sent_lines (run_effects (StreamFile fs writer filename delayMs))
     = map bufio.dropCR pre).
Proof.
  intros Hfile Hlines Hlong.
  assert (bufio.MaxScanTokenSize <= String.length l) as Hle by (apply Nat.lt_le_incl, Hlong).
  unfold StreamFile. rewrite (StreamFile_body_lines _ _ _ _ _ _ Hfile), Hlines.
  split.
  - pose proof (send_lines_sent_prefix delayMs bufio.MaxScanTokenSize None pre l post
                  Hle 0 writer []) as Hp.
    simpl in Hp.
    destruct (run_end _); [exact Hp |].
    cbn [run_effects]. rewrite sent_lines_app. simpl. now rewrite app_nil_r.
  - intros w' Hfit Hd.
    rewrite (send_lines_deliver _ _ _ _ _ _ _ _ _ Hfit Hd).
    cbn [send_lines].
    destruct (Nat.leb_spec bufio.MaxScanTokenSize (String.length l)) as [_ | Hlt];
      [| exfalso; eapply Nat.lt_irrefl, Nat.lt_le_trans; eassumption].
    cbn [run_end run_writer run_effects app].
    repeat split.
    rewrite sent_lines_app, sent_lines_sent_effects. simpl. now rewrite app_nil_r.
Qed.

Lemma C9_long_line_ends_the_stream_witness :
  sent_lines (run_effects (StreamFile long_fs (mkMockLineWriter [] None) "long.txt" 1))
    `prefix_of` map bufio.dropCR ["Line 1"] /\
  (forall w',
     Forall (fits bufio.MaxScanTokenSize) ["Line 1"] ->
     deliver (map bufio.dropCR ["Line 1"]) (mkMockLineWriter [] None) = Some w' ->
     run_end (StreamFile long_fs (mkMockLineWriter [] None) "long.txt" 1)
     = Returns (Some bufio_ErrTooLong) /\
     run_writer (StreamFile long_fs (mkMockLineWriter [] None) "long.txt" 1) = w' /\
     sent_lines (run_effects (StreamFile long_fs (mkMockLineWriter [] None) "long.txt" 1))
     = map bufio.dropCR ["Line 1"]).
Proof.
  apply (C9_long_line_ends_the_stream long_fs true
           ("Line 1" +:+ newline +:+ long_line +:+ newline +:+ "Line 3")
           (mkMockLineWriter [] None) "long.txt" 1 ["Line 1"] long_line ["Line 3"]).
  - reflexivity.
  - rewrite file_lines_line by reflexivity.
    rewrite file_lines_line by (apply has_LF_string_repeat; reflexivity).
    reflexivity.
  - unfold long_line. rewrite length_string_repeat. apply Nat.lt_succ_diag_r.
Defined.

(** ** C10: carriage return and newline *)

(** C10, as the code has it. For a file in which every line ends in carriage
    return and newline, StreamFile sends each line without the newline and
    without that one carriage return, and ProcessLines writes each followed
    by a bare newline: the sink holds the lines with newline endings, and
    reading it back by lines gives the same lines. Only the one carriage
    return before the newline is dropped: the sink has a carriage return at a
    line boundary exactly when some line of the file has a carriage return of
    its own before the carriage return and newline that end it. *)
Theorem C10_CRLF_becomes_LF env err_first input delayMs output w wr ls :
  w_fs w !! input = Some (RegularFile wr (crlf_text ls)) ->
  Forall (fun l => has_LF l = false) ls ->
  Forall (fun l => S (String.length l) < bufio.MaxScanTokenSize) ls ->
  sent_lines (run_effects (StreamFile (w_fs w) (mkChannelWriter [] false) input delayMs))
  = ls /\
  file_lines (lines_text ls) = ls /\
  CR_before_LF (lines_text ls) = existsb ends_in_CR ls /\
  (output = EmptyString ->
   no_write_fault env ->
   printed (pr_trace (SimpleFileTransfer env err_first input delayMs output w))
   = map (fun l => l +:+ newline) ls) /\
  (output <> EmptyString -> output <> input ->
   (exists fs', os_Create (w_fs w) output = inr fs') ->
   no_write_fault env ->
   file_content (pr_world (SimpleFileTransfer env err_first input delayMs output w)) output
   = Some (lines_text ls)).
Proof.
  intros Hfile Hlf Hlen.
  pose proof (file_lines_crlf_text ls Hlf) as Hlines.
  assert (Forall (fits bufio.MaxScanTokenSize) (file_lines (crlf_text ls))) as Hfit
    by (rewrite Hlines; now apply fits_with_CR).
  split; [| split; [now apply file_lines_lines_text |
                    split; [now apply CR_before_LF_lines_text | split]]].
  - destruct (StreamFile_into_channel _ wr _ input delayMs Hfile Hfit) as (_ & Hsent & _).
    now rewrite Hsent, Hlines, map_dropCR_CR.
  - intros -> Hnf.
    destruct (SimpleFileTransfer_stdout env err_first input delayMs w wr _ Hfile Hfit)
      as (_ & _ & Htr).
    rewrite Htr, (line_events_no_fault env true Hnf), Hlines, map_dropCR_CR.
    cbn [printed]. rewrite printed_app, printed_whole. simpl. now rewrite app_nil_r.
  - intros Hne _ [fs' Hc] Hnf.
    destruct (SimpleFileTransfer_file env err_first input delayMs output w wr _ fs'
                Hfile Hfit Hne Hc Hnf) as (_ & Hsink & _).
    now rewrite Hsink, Hlines, map_dropCR_CR.
Qed.

Lemma C10_CRLF_becomes_LF_witness :
  sent_lines (run_effects (StreamFile crlf_fs (mkChannelWriter [] false) "crlf.txt" 0))
  = ["a"] /\
  CR_before_LF (lines_text ["a"]) = existsb ends_in_CR ["a"] /\
  file_content (pr_world (SimpleFileTransfer steady
                            false "crlf.txt" 0 "out.txt" (mkWorld crlf_fs ""))) "out.txt"
  = Some (lines_text ["a"]).
Proof.
  assert (Forall (fun l => S (String.length l) < bufio.MaxScanTokenSize) ["a"]) as Hlen.
  { constructor; [apply Nat.ltb_lt; vm_compute; reflexivity | constructor]. }
  assert (Forall (fun l => has_LF l = false) ["a"]) as Hlf.
  { constructor; [reflexivity | constructor]. }
  destruct (C10_CRLF_becomes_LF steady false
              "crlf.txt" 0 "out.txt" (mkWorld crlf_fs "") true ["a"] eq_refl Hlf Hlen)
    as (Hsent & _ & Hcr & _ & Hfile).
  split; [exact Hsent |]. split; [exact Hcr |].
  apply Hfile.
  - discriminate.
  - discriminate.
  - eexists. reflexivity.
  - intros k. reflexivity.
Defined.

(** C10 as stated fails on a line that has a carriage return of its own
    before its carriage return and newline: of "a", two carriage returns and
    a newline, the sink holds "a", one carriage return and a newline, a
    carriage return at a line boundary. *)
Lemma C10_second_carriage_return_stays :
  crlf_text ["a" +:+ String CR EmptyString] = "a" +:+ String CR (String CR newline) /\
  file_content
    (pr_world (SimpleFileTransfer steady false "crcrlf.txt" 0 "out.txt"
                 (mkWorld {[ "crcrlf.txt" :=
                               RegularFile true ("a" +:+ String CR (String CR newline)) ]}
                          ""))) "out.txt"
  = Some ("a" +:+ String CR newline) /\
  CR_before_LF ("a" +:+ String CR newline) = true.
Proof. split; [reflexivity |]. split; vm_compute; reflexivity. Qed.

(** * Beyond the claims

    Properties of the same code that the specification does not state, and of
    the functions around it: [streamFile] of the commands, the StreamFile of
    the transfer tests, the receiving goroutine of runClient, the mock writer
    and receiver of the tests, and the logger. *)

(** ** StreamFile *)

(** What [StreamFile_body] is on any file system: the run of a failed open,
    or the loop over the lines of what was opened. *)
Lemma StreamFile_body_cases {W} `{LineWriter W} fs (writer : W) filename delayMs :
  (exists err, os_Open fs filename = inl err /\
     StreamFile_body fs writer filename delayMs
     = mkRun (Returns (Some err)) writer [Log ERROR (FailedToOpenFile err)]) \/
  (exists file, os_Open fs filename = inr file /\
     StreamFile_body fs writer filename delayMs
     = send_lines delayMs bufio.MaxScanTokenSize (f_fail file)
         (file_lines (f_unread file)) 0 writer []).
Proof.
  unfold StreamFile_body. destruct (os_Open fs filename) as [err | file].
  - left. eauto.
  - right. exists file. split; [reflexivity |].
    rewrite (scan_loop_lines _ (file_lines (f_unread file))); [reflexivity | reflexivity |].
    apply MaxScanTokenSize_pos.
Qed.

Lemma sent_effects_app delayMs xs : forall ys n,
  sent_effects delayMs n (xs ++ ys)
  = sent_effects delayMs n xs ++ sent_effects delayMs (n + length xs) ys.
Proof.
  induction xs as [|x xs IH]; intros ys n; cbn [app sent_effects length].
  - now rewrite Nat.add_0_r.
  - rewrite IH. now replace (S n + length xs) with (n + S (length xs)) by lia.
Qed.

Lemma paced_tail delayMs fx tl :
  paced delayMs fx -> sleeps tl = [] -> sent_lines tl = [] -> paced delayMs (fx ++ tl).
Proof.
  intros (rest & Hfx & Hs & Hl) Hts Htl. exists (rest ++ tl).
  rewrite sent_lines_app, Htl, app_nil_r, sleeps_app, sent_lines_app, Hs, Hl, Hts, Htl.
  split; [| split; reflexivity].
  rewrite app_assoc, <- Hfx. reflexivity.
Qed.

Lemma paced_exact delayMs fx :
  fx = sent_effects delayMs 0 (sent_lines fx) -> paced delayMs fx.
Proof. intros Hfx. exists []. now rewrite app_nil_r. Qed.

Lemma send_lines_paced {W} `{LineWriter W} delayMs max fail ls :
  forall n (w : W) fx,
  fx = sent_effects delayMs 0 (sent_lines fx) ->
  length (sent_lines fx) = n ->
  paced delayMs (run_effects (send_lines delayMs max fail ls n w fx)).
Proof.
  induction ls as [|l ls IH]; intros n w fx Hfx Hn; cbn [send_lines].
  - destruct (read_error fail); cbn [run_effects];
      (apply paced_tail; [now apply paced_exact | reflexivity | reflexivity]).
  - destruct (max <=? String.length l).
    { cbn [run_effects]. apply paced_tail; [now apply paced_exact | reflexivity | reflexivity]. }
    destruct (SendText _ _) as [[] w1]; cbn [run_effects].
    + apply IH.
      * rewrite sent_lines_app. cbn [sent_lines]. rewrite sent_effects_app, <- Hfx, Hn.
        reflexivity.
      * rewrite sent_lines_app, length_app, Hn. simpl. lia.
    + apply paced_tail; [now apply paced_exact | reflexivity | reflexivity].
    + now apply paced_exact.
Qed.

(** X1. In every run of StreamFile, whatever the file and the writer, the
    effects are: for each line sent, in order, its record followed at once by
    one call of [time.Sleep] with the configured delay; and after them only
    records, no sleep and no sent line. So there is no sleep before the first
    line, exactly one after each line sent, and none after a failed send, a
    failed read or the end of the file. *)
Theorem StreamFile_sleeps_after_each_send {W} `{LineWriter W} fs (writer : W)
    filename delayMs :
  (exists rest,
     run_effects (StreamFile fs writer filename delayMs)
     = sent_effects delayMs 0
         (sent_lines (run_effects (StreamFile fs writer filename delayMs))) ++ rest /\
     sleeps rest = [] /\ sent_lines rest = []) /\
  sleeps (run_effects (StreamFile fs writer filename delayMs))
  = repeat (Duration_of_ms delayMs)
      (length (sent_lines (run_effects (StreamFile fs writer filename delayMs)))).
Proof.
  assert (paced delayMs (run_effects (StreamFile fs writer filename delayMs))) as Hp.
  { assert (paced delayMs (run_effects (StreamFile_body fs writer filename delayMs))) as Hb.
    { destruct (StreamFile_body_cases fs writer filename delayMs)
        as [(err & _ & ->) | (file & _ & ->)].
      - apply (paced_tail delayMs []); [now apply paced_exact | reflexivity | reflexivity].
      - apply send_lines_paced; reflexivity. }
    unfold StreamFile. destruct (run_end _); [exact Hb |].
    cbn [run_effects]. apply paced_tail; [exact Hb | reflexivity | reflexivity]. }
  split; [exact Hp |].
  destruct Hp as (rest & Hfx & Hs & _).
  rewrite Hfx at 1. rewrite sleeps_app, Hs, app_nil_r. apply sleeps_sent_effects.
Qed.

Lemma send_lines_sent_prefix_all {W} `{LineWriter W} delayMs max fail ls :
  forall n (w : W) fx,
  sent_lines (run_effects (send_lines delayMs max fail ls n w fx))
    `prefix_of` sent_lines fx ++ map bufio.dropCR ls.
Proof.
  induction ls as [|l ls IH]; intros n w fx; cbn [send_lines map].
  - destruct (read_error fail); cbn [run_effects]; rewrite sent_lines_app; simpl;
      now rewrite !app_nil_r.
  - destruct (max <=? String.length l).
    { cbn [run_effects]. rewrite sent_lines_app. simpl. rewrite app_nil_r.
      now apply prefix_app_r. }
    destruct (SendText _ _) as [[] w1]; cbn [run_effects].
    + etransitivity; [apply IH |].
      rewrite sent_lines_app. simpl. now rewrite <- app_assoc.
    + rewrite sent_lines_app. simpl. rewrite app_nil_r. now apply prefix_app_r.
    + now apply prefix_app_r.
Qed.

Lemma sent_lines_StreamFile {W} `{LineWriter W} fs (writer : W) filename delayMs :
  sent_lines (run_effects (StreamFile fs writer filename delayMs))
  = sent_lines (run_effects (StreamFile_body fs writer filename delayMs)).
Proof.
  unfold StreamFile. destruct (run_end _); [reflexivity |].
  cbn [run_effects]. rewrite sent_lines_app. simpl. now rewrite app_nil_r.
Qed.

(** X2. Whatever the writer does, the lines StreamFile sends are an initial
    part of the lines of the file with their carriage returns dropped: no
    line is skipped, repeated, reordered or made up. *)
Theorem StreamFile_sends_a_prefix_of_the_file {W} `{LineWriter W} fs wr content
    (writer : W) filename delayMs :
  fs !! filename = Some (RegularFile wr content) ->
  sent_lines (run_effects (StreamFile fs writer filename delayMs))
    `prefix_of` map bufio.dropCR (file_lines content).
Proof.
  intros Hfile. rewrite sent_lines_StreamFile, (StreamFile_body_lines _ _ _ _ _ _ Hfile).
  apply (send_lines_sent_prefix_all delayMs bufio.MaxScanTokenSize None
           (file_lines content) 0 writer []).
Qed.

Lemma StreamFile_sends_a_prefix_of_the_file_witness :
  sent_lines (run_effects (StreamFile test_fs (mkMockLineWriter [] (Some os_ErrInvalid))
                             "test-stream.txt" 1))
    `prefix_of` map bufio.dropCR (file_lines test_file).
Proof.
  apply (StreamFile_sends_a_prefix_of_the_file test_fs true test_file
           (mkMockLineWriter [] (Some os_ErrInvalid)) "test-stream.txt" 1).
  reflexivity.
Defined.

(** The mock writer holds what it held and the lines reported as sent. *)
Lemma send_lines_mock delayMs max fail ls base :
  forall n (m : MockLineWriter) fx,
  Lines m = base ++ sent_lines fx ->
  Lines (run_writer (send_lines delayMs max fail ls n m fx))
  = base ++ sent_lines (run_effects (send_lines delayMs max fail ls n m fx)) /\
  MockErr (run_writer (send_lines delayMs max fail ls n m fx)) = MockErr m.
Proof.
  induction ls as [|l ls IH]; intros n m fx Hm; cbn [send_lines].
  - destruct (read_error fail); cbn [run_effects run_writer]; rewrite sent_lines_app; simpl;
      now rewrite !app_nil_r.
  - destruct (max <=? String.length l).
    { cbn [run_effects run_writer]. rewrite sent_lines_app. simpl. now rewrite !app_nil_r. }
    unfold SendText at 1 2 3, MockLineWriter_LineWriter.
    destruct (MockErr m) as [e |] eqn:Ee.
    + cbn [run_effects run_writer]. rewrite sent_lines_app. simpl. now rewrite !app_nil_r.
    + destruct (IH (S n) (mkMockLineWriter (Lines m ++ [bufio.dropCR l]) (MockErr m))
                  (fx ++ [Log DEBUG (SentLine (S n) (bufio.dropCR l));
                          Sleep (Duration_of_ms delayMs)])) as [HL HE].
      { simpl. rewrite sent_lines_app. simpl. now rewrite Hm, <- app_assoc. }
      rewrite Ee in *. auto.
Qed.

(** X3. After any run of StreamFile the mock writer of server_test.go holds
    the lines it held before followed by exactly the lines reported as sent,
    and its [Err] is unchanged. *)
Theorem MockLineWriter_records_the_lines_sent fs (m : MockLineWriter) filename delayMs :
  Lines (run_writer (StreamFile fs m filename delayMs))
  = Lines m ++ sent_lines (run_effects (StreamFile fs m filename delayMs)) /\
  MockErr (run_writer (StreamFile fs m filename delayMs)) = MockErr m.
Proof.
  rewrite sent_lines_StreamFile.
  assert (Lines (run_writer (StreamFile_body fs m filename delayMs))
          = Lines m ++ sent_lines (run_effects (StreamFile_body fs m filename delayMs)) /\
          MockErr (run_writer (StreamFile_body fs m filename delayMs)) = MockErr m) as Hb.
  { destruct (StreamFile_body_cases fs m filename delayMs)
      as [(err & _ & ->) | (file & _ & ->)].
    - simpl. now rewrite app_nil_r.
    - apply send_lines_mock. simpl. now rewrite app_nil_r. }
  unfold StreamFile. destruct (run_end _); exact Hb.
Qed.

(** ** Framing *)

Lemma file_lines_no_LF content :
  Forall (fun l => has_LF l = false) (file_lines content).
Proof.
  induction content as [|c rest IH]; cbn [file_lines]; [constructor |].
  destruct (is_LF c) eqn:Ec.
  - constructor; [reflexivity | exact IH].
  - destruct (file_lines rest) as [|l ls].
    + repeat constructor. simpl. now rewrite Ec.
    + inversion IH as [|? ? Hl Hls]; subst. constructor; [| exact Hls].
      simpl. now rewrite Ec, Hl.
Qed.

Lemma dropCR_no_LF l : has_LF l = false -> has_LF (bufio.dropCR l) = false.
Proof.
  induction l as [|c l IH]; [reflexivity |].
  intros Hl. simpl in Hl. apply orb_false_iff in Hl as [Hc Hl].
  destruct l as [|c' l].
  - simpl. destruct (is_CR c); simpl; [reflexivity | now rewrite Hc].
  - change (bufio.dropCR (String c (String c' l)))
      with (String c (bufio.dropCR (String c' l))).
    cbn [has_LF]. now rewrite Hc, (IH Hl).
Qed.

Lemma Forall_of_prefix {A} (P : A -> Prop) (xs ys : list A) :
  xs `prefix_of` ys -> Forall P ys -> Forall P xs.
Proof.
  intros [k ->] Hys. now apply Forall_app in Hys as [Hxs _].
Qed.

(** X4. No line StreamFile sends holds a newline, so the text ProcessLines
    writes for the lines sent (each followed by one newline) splits back into
    exactly these lines. *)
Theorem StreamFile_lines_survive_the_framing {W} `{LineWriter W} fs wr content
    (writer : W) filename delayMs :
  fs !! filename = Some (RegularFile wr content) ->
  Forall (fun l => has_LF l = false)
         (sent_lines (run_effects (StreamFile fs writer filename delayMs))) /\
  file_lines (lines_text (sent_lines (run_effects (StreamFile fs writer filename delayMs))))
  = sent_lines (run_effects (StreamFile fs writer filename delayMs)).
Proof.
  intros Hfile.
  assert (Forall (fun l => has_LF l = false)
            (sent_lines (run_effects (StreamFile fs writer filename delayMs)))) as Hno.
  { apply (Forall_of_prefix _ _ (map bufio.dropCR (file_lines content))).
    - rewrite sent_lines_StreamFile, (StreamFile_body_lines _ _ _ _ _ _ Hfile).
      apply (send_lines_sent_prefix_all delayMs bufio.MaxScanTokenSize None
               (file_lines content) 0 writer []).
    - apply Forall_map. eapply Forall_impl; [apply file_lines_no_LF |].
      intros l Hl. now apply dropCR_no_LF. }
  split; [exact Hno | now apply file_lines_lines_text].
Qed.

Lemma StreamFile_lines_survive_the_framing_witness :
  Forall (fun l => has_LF l = false)
         (sent_lines (run_effects (StreamFile crlf_fs (mkMockLineWriter [] None)
                                     "crlf.txt" 1))) /\
  file_lines (lines_text (sent_lines (run_effects (StreamFile crlf_fs
                                                     (mkMockLineWriter [] None)
                                                     "crlf.txt" 1))))
  = sent_lines (run_effects (StreamFile crlf_fs (mkMockLineWriter [] None) "crlf.txt" 1)).
Proof.
  apply (StreamFile_lines_survive_the_framing crlf_fs true ("a" +:+ String CR newline)
           (mkMockLineWriter [] None) "crlf.txt" 1).
  reflexivity.
Defined.

(** ** Nothing to send *)

(** X5. StreamFile on a missing file returns the error of [os.Open], on a
    directory the error of the first read, and on an empty file nil with the
    record of 0 lines; in the three cases the writer is not called and there
    is no sleep. *)
Theorem StreamFile_without_lines {W} `{LineWriter W} fs (writer : W) filename delayMs :
  (fs !! filename = None ->
   StreamFile fs writer filename delayMs
   = mkRun (Returns (Some (PathError "open" filename ENOENT))) writer
       [Log ERROR (FailedToOpenFile (PathError "open" filename ENOENT))]) /\
  (fs !! filename = Some Directory ->
   StreamFile fs writer filename delayMs
   = mkRun (Returns (Some (PathError "read" filename EISDIR))) writer
       [Log ERROR (ErrorReadingFile (PathError "read" filename EISDIR))]) /\
  (forall wr, fs !! filename = Some (RegularFile wr EmptyString) ->
   StreamFile fs writer filename delayMs
   = mkRun (Returns None) writer [Log INFO (FinishedStreaming 0)]).
Proof.
  split; [| split].
  - intros Hfile. unfold StreamFile, StreamFile_body, os_Open. now rewrite Hfile.
  - intros Hfile. unfold StreamFile, StreamFile_body, os_Open. rewrite Hfile.
    rewrite (scan_loop_lines _ []); [reflexivity | reflexivity |].
    apply MaxScanTokenSize_pos.
  - intros wr Hfile. unfold StreamFile.
    now rewrite (StreamFile_body_lines _ _ _ _ _ _ Hfile).
Qed.

Lemma StreamFile_without_lines_witness :
  StreamFile test_fs (mkMockLineWriter [] None) "missing.txt" 1
  = mkRun (Returns (Some (PathError "open" "missing.txt" ENOENT))) (mkMockLineWriter [] None)
      [Log ERROR (FailedToOpenFile (PathError "open" "missing.txt" ENOENT))].
Proof.
  destruct (StreamFile_without_lines test_fs (mkMockLineWriter [] None) "missing.txt" 1)
    as (Hmissing & _ & _).
  apply Hmissing. reflexivity.
Defined.

(** ** The delay as a duration *)

(** X6. [time.Duration(delayMs) * time.Millisecond] is the delay in
    nanoseconds as long as the delay is at most 9223372036854 ms in absolute
    value; just above, up to 18446744073709 ms, the product wraps around to a
    negative duration. *)
Theorem Duration_of_ms_range delayMs :
  ((-9223372036854 <= delayMs <= 9223372036854)%Z ->
   Duration_of_ms delayMs = (delayMs * 1000000)%Z) /\
  ((9223372036854 < delayMs <= 18446744073709)%Z ->
   (Duration_of_ms delayMs < 0)%Z).
Proof.
  unfold Duration_of_ms, wrap64. split; intros Hr.
  - rewrite Z.mod_small; lia.
  - replace (delayMs * 1000000 + 2 ^ 63)%Z
      with (delayMs * 1000000 - 2 ^ 63 + 1 * 2 ^ 64)%Z by lia.
    rewrite Z.mod_add by lia. rewrite Z.mod_small; lia.
Qed.

Lemma Duration_of_ms_range_witness :
  Duration_of_ms 1000 = (1000 * 1000000)%Z /\ (Duration_of_ms 9223372036855 < 0)%Z.
Proof.
  split.
  - destruct (Duration_of_ms_range 1000) as [Hin _]. apply Hin. lia.
  - destruct (Duration_of_ms_range 9223372036855) as [_ Hout]. apply Hout. lia.
Defined.

(** ** streamFile of the commands *)

Section streamFileFacts.
Context {W : Type} `{LineWriter W}.

Lemma stream_loop_step delayMs scanner lineCount (dataChannel : W) fx :
  stream_loop delayMs scanner lineCount dataChannel fx =
  match bufio.Scan scanner with
  | (true, scanner') =>
      match SendText (bufio.Text scanner') dataChannel with
      | (SendErr e, dataChannel') =>
          mkCmdRun Returned dataChannel'
            (fx ++ [Log ERROR (FailedToSendLine (S lineCount) e)])
      | (SendPanic r, dataChannel') => mkCmdRun (Panicking r) dataChannel' fx
      | (SendOk, dataChannel') =>
          stream_loop delayMs scanner' (S lineCount) dataChannel'
            (fx ++ [Log DEBUG (SentLine (S lineCount) (bufio.Text scanner'));
                    Sleep (Duration_of_ms delayMs)])
      end
  | (false, scanner') =>
      match bufio.Err scanner' with
      | Some e =>
          mkCmdRun Returned dataChannel
            (fx ++ [Log ERROR (ErrorReadingFile e);
                    Log INFO (FinishedStreaming lineCount)])
      | None =>
          mkCmdRun Returned dataChannel (fx ++ [Log INFO (FinishedStreaming lineCount)])
      end
  end.
Proof.
  funelim (stream_loop delayMs scanner lineCount dataChannel fx);
    match goal with E : bufio.Scan _ = _ |- _ => rewrite E end;
    try match goal with E : SendText _ _ = _ |- _ => rewrite E end;
    try match goal with E : bufio.Err _ = _ |- _ => rewrite E end;
    reflexivity.
Qed.

(** The two loops send the same lines to the same writer with the same
    pauses. *)
Lemma stream_loop_scan_loop delayMs k : forall scanner lineCount (w : W) fx,
  String.length (bufio.sc_unread scanner) < k ->
  cr_writer (stream_loop delayMs scanner lineCount w fx)
  = run_writer (scan_loop delayMs scanner lineCount w fx) /\
  sent_lines (cr_effects (stream_loop delayMs scanner lineCount w fx))
  = sent_lines (run_effects (scan_loop delayMs scanner lineCount w fx)) /\
  sleeps (cr_effects (stream_loop delayMs scanner lineCount w fx))
  = sleeps (run_effects (scan_loop delayMs scanner lineCount w fx)).
Proof.
  induction k as [|k IH]; intros scanner n w fx Hk; [lia |].
  rewrite stream_loop_step, scan_loop_step.
  destruct (bufio.Scan scanner) as [[|] scanner'] eqn:Escan.
  - destruct (SendText (bufio.Text scanner') w) as [[| e | r] w'].
    + apply IH. apply Scan_shorter in Escan. lia.
    + cbn [cr_writer run_writer cr_effects run_effects]. auto.
    + cbn [cr_writer run_writer cr_effects run_effects]. auto.
  - destruct (bufio.Err scanner');
      cbn [cr_writer run_writer cr_effects run_effects];
      rewrite !sent_lines_app, !sleeps_app; simpl; auto.
Qed.

Lemma sent_lines_shared_map fx : shared (map Shared fx) = fx.
Proof. induction fx as [|e fx IH]; simpl; [reflexivity | now rewrite IH]. Qed.

Lemma shared_app xs ys : shared (xs ++ ys) = shared xs ++ shared ys.
Proof.
  induction xs as [|[e | r] xs IH]; simpl; [reflexivity | now rewrite IH | exact IH].
Qed.

End streamFileFacts.

(** X7. [streamFile] of the commands and [StreamFile] of the server package
    send the same lines with the same sleeps and leave the same writer, on
    every file system and for every writer. *)
Theorem streamFile_streams_like_StreamFile {W} `{LineWriter W} fs (dataChannel : W)
    filename delayMs :
  fst (streamFile fs dataChannel filename delayMs)
  = run_writer (StreamFile fs dataChannel filename delayMs) /\
  sent_lines (shared (snd (streamFile fs dataChannel filename delayMs)))
  = sent_lines (run_effects (StreamFile fs dataChannel filename delayMs)) /\
  sleeps (shared (snd (streamFile fs dataChannel filename delayMs)))
  = sleeps (run_effects (StreamFile fs dataChannel filename delayMs)).
Proof.
  assert (cr_writer (streamFile_body fs dataChannel filename delayMs)
          = run_writer (StreamFile_body fs dataChannel filename delayMs) /\
          sent_lines (cr_effects (streamFile_body fs dataChannel filename delayMs))
          = sent_lines (run_effects (StreamFile_body fs dataChannel filename delayMs)) /\
          sleeps (cr_effects (streamFile_body fs dataChannel filename delayMs))
          = sleeps (run_effects (StreamFile_body fs dataChannel filename delayMs)))
    as (Hw & Hs & Hp).
  { unfold streamFile_body, StreamFile_body.
    destruct (os_Open fs filename) as [err | file]; [simpl; auto |].
    apply (stream_loop_scan_loop delayMs
             (S (String.length (bufio.sc_unread (bufio.NewScanner file))))).
    lia. }
  unfold streamFile, StreamFile.
  destruct (cr_end _); destruct (run_end _);
    cbn [fst snd run_writer run_effects];
    rewrite ?shared_app, ?sent_lines_shared_map, ?sent_lines_app, ?sleeps_app;
    simpl; rewrite ?app_nil_r; auto.
Qed.

(** ** StreamFile of the transfer tests *)

Section e2eFacts.
Context {W : Type} `{LineWriter W}.

Lemma e2e_scan_lines_step delayMs scanner (writer : W) naps :
  e2e.scan_lines delayMs scanner writer naps =
  match bufio.Scan scanner with
  | (true, scanner') =>
      match SendText (bufio.Text scanner') writer with
      | (SendErr e, writer') => e2e.ran (Returns (Some e)) writer' naps
      | (SendPanic r, writer') => e2e.ran (Panics r) writer' naps
      | (SendOk, writer') =>
          e2e.scan_lines delayMs scanner' writer' (naps ++ [Duration_of_ms delayMs])
      end
  | (false, scanner') => e2e.ran (Returns (bufio.Err scanner')) writer naps
  end.
Proof.
  funelim (e2e.scan_lines delayMs scanner writer naps);
    match goal with E : bufio.Scan _ = _ |- _ => rewrite E end;
    try match goal with E : SendText _ _ = _ |- _ => rewrite E end;
    reflexivity.
Qed.

Lemma e2e_scan_lines_scan_loop delayMs k : forall scanner lineCount (w : W) fx,
  String.length (bufio.sc_unread scanner) < k ->
  e2e.scan_lines delayMs scanner w (sleeps fx)
  = e2e.ran (run_end (scan_loop delayMs scanner lineCount w fx))
      (run_writer (scan_loop delayMs scanner lineCount w fx))
      (sleeps (run_effects (scan_loop delayMs scanner lineCount w fx))).
Proof.
  induction k as [|k IH]; intros scanner n w fx Hk; [lia |].
  rewrite e2e_scan_lines_step, scan_loop_step.
  destruct (bufio.Scan scanner) as [[|] scanner'] eqn:Escan.
  - destruct (SendText (bufio.Text scanner') w) as [[| e | r] w'].
    + rewrite <- (IH scanner' (S n)) by (apply Scan_shorter in Escan; lia).
      rewrite sleeps_app. reflexivity.
    + cbn [run_end run_writer run_effects]. rewrite sleeps_app. simpl.
      now rewrite app_nil_r.
    + reflexivity.
  - destruct (bufio.Err scanner'); cbn [run_end run_writer run_effects];
      rewrite sleeps_app; simpl; now rewrite app_nil_r.
Qed.

End e2eFacts.

(** X8. The StreamFile of the transfer tests leaves the same writer and
    makes the same sleeps as the StreamFile of the server package, and
    returns what that one returns; the two differ when the writer panics:
    the test's StreamFile panics, the server's recovers, logs and returns
    nil. *)
Theorem e2e_StreamFile_is_StreamFile_without_recover {W} `{LineWriter W} fs (writer : W)
    filename delayMs :
  e2e.writer_left (e2e.StreamFile fs writer filename delayMs)
  = run_writer (StreamFile fs writer filename delayMs) /\
  e2e.slept (e2e.StreamFile fs writer filename delayMs)
  = sleeps (run_effects (StreamFile fs writer filename delayMs)) /\
  match e2e.ended (e2e.StreamFile fs writer filename delayMs) with
  | Returns err => run_end (StreamFile fs writer filename delayMs) = Returns err
  | Panics r =>
      run_end (StreamFile fs writer filename delayMs) = Returns None /\
      exists fx, run_effects (StreamFile fs writer filename delayMs)
                 = fx ++ [Log ERROR (RecoveredFromPanic r)]
  end.
Proof.
  assert (e2e.StreamFile fs writer filename delayMs
          = e2e.ran (run_end (StreamFile_body fs writer filename delayMs))
              (run_writer (StreamFile_body fs writer filename delayMs))
              (sleeps (run_effects (StreamFile_body fs writer filename delayMs)))) as ->.
  { unfold e2e.StreamFile, StreamFile_body.
    destruct (os_Open fs filename) as [err | file]; [reflexivity |].
    apply (e2e_scan_lines_scan_loop delayMs
             (S (String.length (bufio.sc_unread (bufio.NewScanner file))))
             (bufio.NewScanner file) 0 writer []).
    lia. }
  unfold StreamFile. cbn [e2e.writer_left e2e.slept e2e.ended].
  destruct (run_end (StreamFile_body fs writer filename delayMs)) as [err | r] eqn:Eend.
  - rewrite Eend. auto.
  - cbn [run_writer run_effects run_end]. rewrite sleeps_app. simpl. rewrite app_nil_r.
    split; [reflexivity |]. split; [reflexivity |]. split; [reflexivity |]. eauto.
Qed.

(** ** The numbers in the records *)

Lemma sent_numbers_app xs ys : sent_numbers (xs ++ ys) = sent_numbers xs ++ sent_numbers ys.
Proof.
  induction xs as [|[[] []|] xs IH]; simpl; try exact IH; [reflexivity |].
  now rewrite IH.
Qed.

Lemma no_count_ok n fx : Forall no_count fx -> Forall (count_ok n) fx.
Proof.
  intros Hno. eapply Forall_impl; [exact Hno |].
  intros [lv []|]; simpl; tauto.
Qed.

Lemma counts_right_last fx e :
  Forall no_count fx ->
  sent_numbers fx = seq 1 (length (sent_lines fx)) ->
  sent_lines [e] = [] ->
  count_ok (length (sent_lines fx)) e ->
  counts_right (fx ++ [e]).
Proof.
  intros Hno Hnum He Hok. unfold counts_right.
  assert (sent_numbers [e] = []) as Hn.
  { destruct e as [[] []|]; try reflexivity; discriminate. }
  rewrite sent_numbers_app, sent_lines_app, He, Hn, !app_nil_r. split; [exact Hnum |].
  apply Forall_app. split; [now apply no_count_ok | now repeat constructor].
Qed.

Lemma send_lines_counts {W} `{LineWriter W} delayMs max fail ls :
  forall n (w : W) fx,
  Forall no_count fx ->
  sent_numbers fx = seq 1 n ->
  length (sent_lines fx) = n ->
  counts_right (run_effects (send_lines delayMs max fail ls n w fx)) /\
  forall r, counts_right (run_effects (send_lines delayMs max fail ls n w fx)
                          ++ [Log ERROR (RecoveredFromPanic r)]).
Proof.
  assert (forall fx e r, counts_right (fx ++ [e]) ->
            sent_lines [e] = [] ->
            counts_right ((fx ++ [e]) ++ [Log ERROR (RecoveredFromPanic r)])) as Hrec.
  { intros fx e r [Hnum Hok] He. unfold counts_right.
    rewrite sent_numbers_app, sent_lines_app. simpl. rewrite !app_nil_r.
    split; [exact Hnum |]. apply Forall_app. split; [exact Hok | now repeat constructor]. }
  induction ls as [|l ls IH]; intros n w fx Hno Hnum Hlen; cbn [send_lines].
  - destruct (read_error fail); cbn [run_effects]; split;
      try (intros ?; apply Hrec; [| reflexivity]);
      apply counts_right_last; rewrite ?Hlen; simpl; auto.
  - destruct (max <=? String.length l).
    { cbn [run_effects]. split;
        try (intros ?; apply Hrec; [| reflexivity]);
        apply counts_right_last; rewrite ?Hlen; simpl; auto. }
    destruct (SendText _ _) as [[] w1]; cbn [run_effects].
    + apply IH.
      * apply Forall_app. split; [exact Hno | now repeat constructor].
      * rewrite sent_numbers_app, Hnum, seq_S. reflexivity.
      * rewrite sent_lines_app, length_app, Hlen. simpl. lia.
    + split; try (intros ?; apply Hrec; [| reflexivity]);
        apply counts_right_last; rewrite ?Hlen; simpl; auto.
    + split.
      * unfold counts_right. rewrite Hlen. split; [exact Hnum | now apply no_count_ok].
      * intros ?. apply counts_right_last; rewrite ?Hlen; simpl; auto.
Qed.

(** X9. In every run of StreamFile the records of sent lines are numbered
    1, 2, 3, ... without a gap; a record of the end of the stream carries the
    number of lines sent, and a record of a failed send the number of the
    line after them. *)
Theorem StreamFile_counts_what_it_sends {W} `{LineWriter W} fs (writer : W)
    filename delayMs :
  sent_numbers (run_effects (StreamFile fs writer filename delayMs))
  = seq 1 (length (sent_lines (run_effects (StreamFile fs writer filename delayMs)))) /\
  (forall lv n,
     In (Log lv (FinishedStreaming n)) (run_effects (StreamFile fs writer filename delayMs)) ->
     n = length (sent_lines (run_effects (StreamFile fs writer filename delayMs)))) /\
  (forall lv k e,
     In (Log lv (FailedToSendLine k e)) (run_effects (StreamFile fs writer filename delayMs)) ->
     k = S (length (sent_lines (run_effects (StreamFile fs writer filename delayMs))))).
Proof.
  assert (counts_right (run_effects (StreamFile fs writer filename delayMs))) as [Hnum Hok].
  { unfold StreamFile.
    destruct (StreamFile_body_cases fs writer filename delayMs)
      as [(err & _ & ->) | (file & _ & ->)].
    - simpl. split; [reflexivity | now repeat constructor].
    - destruct (send_lines_counts delayMs bufio.MaxScanTokenSize (f_fail file)
                  (file_lines (f_unread file)) 0 writer [])
        as [Hret Hrec]; try reflexivity; [constructor |].
      destruct (run_end _); [exact Hret | apply Hrec]. }
  split; [exact Hnum |].
  rewrite Forall_forall in Hok.
  split; [intros lv n Hin | intros lv k e Hin];
    apply list_elem_of_In in Hin; exact (Hok _ Hin).
Qed.

(** ** ProcessLines *)

(** The run of ProcessLines is the loop, on standard output or on the file
    just created. *)
Lemma ProcessLines_loop {R} `{LineReceiver R} env (receiver : R) output w :
  output = EmptyString \/ (exists fs', os_Create (w_fs w) output = inr fs') ->
  exists outputFile w0 tr0,
    ProcessLines env receiver output w
    = process_loop env outputFile (ReceiveLines receiver) 0 0 w0 tr0 /\
    (output = EmptyString ->
     outputFile = None /\ w0 = w /\ tr0 = [Logged INFO WritingOutputToStdout]) /\
    (output <> EmptyString ->
     outputFile = Some output /\ file_content w0 output = Some EmptyString /\
     tr0 = [Logged INFO (WritingOutputToFile output)]).
Proof.
  intros Hsink. destruct (String.eqb_spec output EmptyString) as [-> | Hne].
  - exists None, w, [Logged INFO WritingOutputToStdout].
    split; [reflexivity |]. split; [auto | congruence].
  - destruct Hsink as [-> | [fs' Hc]]; [contradiction |].
    exists (Some output),
      (mkWorld (<[output := RegularFile true EmptyString]> (w_fs w)) (w_stdout w)),
      [Logged INFO (WritingOutputToFile output)].
    split; [now apply (ProcessLines_file env receiver output w fs') |].
    split; [congruence |]. intros _.
    split; [reflexivity |]. split; [apply file_content_created | reflexivity].
Qed.

(** X10. When the error channel delivers a value that is not [io.EOF] (an
    error, or nil), ProcessLines returns at once with the number of lines
    received so far and that very value. What it has written by then is its
    first record, the lines received before (on standard output each line
    with its newline, followed by its record; for a file the records alone,
    the lines being in the file) and the record of the error. *)
Theorem ProcessLines_returns_the_error_received {R} `{LineReceiver R} env (receiver : R)
    output w pre err rest :
  ReceiveLines receiver = pre ++ RecvErr err :: rest ->
  Forall (fun x => goes_on x = true) pre ->
  err <> Some io_EOF ->
  output = EmptyString \/
    (no_write_fault env /\ exists fs', os_Create (w_fs w) output = inr fs') ->
  result_of (ProcessLines env receiver output w) = Some (length (received pre), err) /\
  (output = EmptyString ->
   pr_trace (ProcessLines env receiver output w)
   = Logged INFO WritingOutputToStdout
     :: line_events (kept env) true 0 (received pre)
     ++ [Logged ERROR (ErrorReceivingLine err)]) /\
  (output <> EmptyString ->
   file_content (pr_world (ProcessLines env receiver output w)) output
   = Some (lines_text (received pre)) /\
   pr_trace (ProcessLines env receiver output w)
   = Logged INFO (WritingOutputToFile output)
     :: line_events whole false 0 (received pre)
     ++ [Logged ERROR (ErrorReceivingLine err)]).
Proof.
  intros Hcases Hpre Herr Hsink.
  assert (forall o c n w1 tr,
            process_loop env o (RecvErr err :: rest) c n w1 tr
            = mkProcessRun (Done c (since env (S n)) err) w1
                (tr ++ [Logged ERROR (ErrorReceivingLine err)])) as Hstop.
  { intros o c n w1 tr. simpl. destruct err as [[] |]; try reflexivity. congruence. }
  destruct (ProcessLines_loop env receiver output w) as (o & w0 & tr0 & -> & Hstd & Hfile).
  { destruct Hsink as [-> | [_ Hc]]; auto. }
  rewrite Hcases.
  destruct (String.eqb_spec output EmptyString) as [Hout | Hout].
  - destruct (Hstd Hout) as (-> & -> & ->).
    rewrite process_loop_stdout_quiet by exact Hpre. rewrite Hstop.
    cbn [result_of pr_outcome pr_trace]. split; [reflexivity |].
    split; [intros _; now rewrite <- app_assoc | contradiction].
  - destruct (Hfile Hout) as (-> & Hc & ->).
    destruct Hsink as [-> | [Hnf _]]; [contradiction |].
    rewrite process_loop_file_quiet; [| exact Hpre | intros; apply Hnf]. rewrite Hstop.
    cbn [result_of pr_outcome pr_world pr_trace]. split; [reflexivity |].
    split; [contradiction |]. intros _. split.
    + rewrite (file_content_append _ _ _ EmptyString) by exact Hc. reflexivity.
    + now rewrite <- app_assoc.
Qed.

Lemma ProcessLines_returns_the_error_received_witness :
  result_of (ProcessLines steady
               (mkChannelLineReceiver [RecvLine "Line 1"; RecvErr (Some os_ErrInvalid)])
               "" (mkWorld ∅ ""))
  = Some (1, Some os_ErrInvalid) /\
  pr_trace (ProcessLines steady
              (mkChannelLineReceiver [RecvLine "Line 1"; RecvErr (Some os_ErrInvalid)])
              "" (mkWorld ∅ ""))
  = Logged INFO WritingOutputToStdout
    :: line_events (kept steady) true 0 ["Line 1"]
    ++ [Logged ERROR (ErrorReceivingLine (Some os_ErrInvalid))].
Proof.
  destruct (ProcessLines_returns_the_error_received steady
              (mkChannelLineReceiver [RecvLine "Line 1"; RecvErr (Some os_ErrInvalid)])
              "" (mkWorld ∅ "") [RecvLine "Line 1"] (Some os_ErrInvalid) [])
    as (Hres & Hout & _).
  - reflexivity.
  - repeat constructor.
  - discriminate.
  - left. reflexivity.
  - split; [exact Hres | apply Hout; reflexivity].
Defined.

(** X11. Closing the error channel does not end ProcessLines: as long as
    the line channel is not found closed and no error value arrives, it does
    not return, however often the closed error channel is selected, and it
    has counted every line received. *)
Theorem ProcessLines_waits_for_the_line_channel {R} `{LineReceiver R} env (receiver : R)
    output w :
  Forall (fun x => goes_on x = true) (ReceiveLines receiver) ->
  output = EmptyString \/
    (no_write_fault env /\ exists fs', os_Create (w_fs w) output = inr fs') ->
  result_of (ProcessLines env receiver output w) = None /\
  outcome_count (ProcessLines env receiver output w)
  = length (received (ReceiveLines receiver)).
Proof.
  intros Hcases Hsink.
  destruct (ProcessLines_loop env receiver output w) as (o & w0 & tr0 & -> & Hstd & Hfile).
  { destruct Hsink as [-> | [_ Hc]]; auto. }
  destruct (String.eqb_spec output EmptyString) as [Hout | Hout].
  - destruct (Hstd Hout) as (-> & -> & ->).
    pose proof (process_loop_stdout_quiet env (ReceiveLines receiver) [] 0 0 w
                  [Logged INFO WritingOutputToStdout] Hcases) as Hq.
    rewrite app_nil_r in Hq. rewrite Hq. split; reflexivity.
  - destruct (Hfile Hout) as (-> & Hc & ->).
    destruct Hsink as [-> | [Hnf _]]; [contradiction |].
    pose proof (process_loop_file_quiet env output (ReceiveLines receiver) [] 0 0 w0
                  [Logged INFO (WritingOutputToFile output)] Hcases
                  (fun k _ => Hnf k)) as Hq.
    rewrite app_nil_r in Hq. rewrite Hq. split; reflexivity.
Qed.

Lemma ProcessLines_waits_for_the_line_channel_witness :
  result_of (ProcessLines steady (mkChannelLineReceiver [RecvLine "Line 1"; ErrChanClosed])
               "" (mkWorld ∅ ""))
  = None /\
  outcome_count (ProcessLines steady
                   (mkChannelLineReceiver [RecvLine "Line 1"; ErrChanClosed])
                   "" (mkWorld ∅ ""))
  = 1.
Proof.
  destruct (ProcessLines_waits_for_the_line_channel steady
              (mkChannelLineReceiver [RecvLine "Line 1"; ErrChanClosed]) "" (mkWorld ∅ ""))
    as [Hwaits Hcount].
  - repeat constructor.
  - left. reflexivity.
  - split; [exact Hwaits | exact Hcount].
Defined.

(** X12. The mock receiver of client_test.go closes both channels after
    buffering its error, so the [select] of ProcessLines can find the line
    channel closed first: then ProcessLines returns nil and the error is
    lost. Only when the error is selected first is it returned. *)
Theorem MockLineReceiver_error_can_be_lost env (m : MockLineReceiver) w e :
  MockRecvErr m = Some e ->
  (mock_close_first m = true ->
   result_of (ProcessLines env m EmptyString w) = Some (length (MockLines m), None)) /\
  (mock_close_first m = false -> e <> io_EOF ->
   result_of (ProcessLines env m EmptyString w) = Some (length (MockLines m), Some e)).
Proof.
  intros He.
  assert (forall last,
            result_of (process_loop env None (map RecvLine (MockLines m) ++ [last]) 0 0 w
                         [Logged INFO WritingOutputToStdout])
            = result_of (process_loop env None [last] (length (MockLines m))
                           (length (map RecvLine (MockLines m)))
                           (mkWorld (w_fs w) (w_stdout w +:+ kept_text env 0 (MockLines m)))
                           ([Logged INFO WritingOutputToStdout]
                            ++ line_events (kept env) true 0 (MockLines m)))) as Hq.
  { intros last.
    rewrite (process_loop_stdout_quiet env (map RecvLine (MockLines m)) [last] 0 0 w)
      by apply goes_on_lines.
    now rewrite received_lines. }
  unfold ProcessLines, ReceiveLines, MockLineReceiver_LineReceiver. simpl String.eqb.
  cbv iota. rewrite He. split.
  - intros ->. now rewrite Hq.
  - intros -> Hne. rewrite Hq. simpl. destruct e; try reflexivity. congruence.
Qed.

Lemma MockLineReceiver_error_can_be_lost_witness :
  result_of (ProcessLines steady
               (mkMockLineReceiver [] (Some (errors_New "test error")) 0 true)
               "" (mkWorld ∅ ""))
  = Some (0, None) /\
  result_of (ProcessLines steady
               (mkMockLineReceiver [] (Some (errors_New "test error")) 0 false)
               "" (mkWorld ∅ ""))
  = Some (0, Some (errors_New "test error")).
Proof.
  split.
  - destruct (MockLineReceiver_error_can_be_lost steady
                (mkMockLineReceiver [] (Some (errors_New "test error")) 0 true)
                (mkWorld ∅ "") (errors_New "test error") eq_refl) as [Hlost _].
    apply Hlost. reflexivity.
  - destruct (MockLineReceiver_error_can_be_lost steady
                (mkMockLineReceiver [] (Some (errors_New "test error")) 0 false)
                (mkWorld ∅ "") (errors_New "test error") eq_refl) as [_ Hkept].
    apply Hkept; [reflexivity | discriminate].
Defined.

(** ** The handler and the sessions it registers *)

(** X13. The handler registers the [OnOpen] callback that starts a streaming
    session exactly when the request is a POST whose body parses and the peer
    connection, the remote description and the data channel succeed, whatever
    happens afterwards. So every 200 and every request left without a
    response has registered one, no 405 or 400 has, and a 500 may have. *)
Theorem offer_handler_registers_a_session (t : Transport) (r : http.Request) :
  (h_registered (offer_handler t r) = true <->
   http.Method r = http.MethodPost /\
   exists offer,
     parsed t r = Some offer /\ NewPeerConnection t = None /\
     SetRemoteDescription t offer = None /\ CreateDataChannel t = None) /\
  match h_response (offer_handler t r) with
  | Some resp =>
      http.StatusCode resp = http.StatusInternalServerError \/
      h_registered (offer_handler t r) = (http.StatusCode resp =? http.StatusOK)
  | None => h_registered (offer_handler t r) = true
  end.
Proof.
  unfold offer_handler, parsed.
  destruct (String.eqb_spec (http.Method r) http.MethodPost) as [Hm | Hm]; simpl.
  2: { split; [| now right]. split; [discriminate | intros [Hp _]; contradiction]. }
  destruct (http.Body r) as [err | offerBytes]; simpl.
  { split; [| now right]. split; [discriminate | intros (_ & o & Ho & _); discriminate]. }
  destruct (json_Unmarshal t offerBytes) as [err | offer]; simpl.
  { split; [| now right]. split; [discriminate | intros (_ & o & Ho & _); discriminate]. }
  destruct (NewPeerConnection t) as [err |] eqn:Epc; simpl.
  { split; [| now left]. split; [discriminate |].
    intros (_ & o & _ & Hn & _). discriminate. }
  destruct (SetRemoteDescription t offer) as [err |] eqn:Erd; simpl.
  { split; [| now left]. split; [discriminate |].
    intros (_ & o & [= <-] & _ & Hn & _). congruence. }
  destruct (CreateDataChannel t) as [err |] eqn:Edc; simpl.
  { split; [| now left]. split; [discriminate |].
    intros (_ & o & _ & _ & _ & Hn). discriminate. }
  assert (http.Method r = http.MethodPost /\
          exists o, Some offer = Some o /\ None = (None : option error) /\
                    SetRemoteDescription t o = None /\ None = (None : option error)) as Hyes.
  { split; [exact Hm |]. exists offer. auto. }
  destruct (CreateAnswer t) as [err | answer]; simpl.
  { split; [| now left]. split; [intros _; exact Hyes | reflexivity]. }
  destruct (SetLocalDescription t answer) as [err |]; simpl.
  { split; [| now left]. split; [intros _; exact Hyes | reflexivity]. }
  destruct (GatheringComplete t); simpl.
  - destruct (json_Encode t (LocalDescription t)); simpl; (split; [| now right]);
      (split; [intros _; exact Hyes | reflexivity]).
  - split; [| reflexivity]. split; [intros _; exact Hyes | reflexivity].
Qed.

(** ** Shutdown *)

Lemma step_without_signal a s s' :
  step a s = Some s' -> a <> Signal ->
  pc s = AwaitSignal -> signalled s = false -> (listening s = true -> served s = true) ->
  pc s' = AwaitSignal /\ signalled s' = false /\
  (listening s' = true -> served s' = true) /\
  (listening s = true -> listening s' = true) /\
  (a = Listen -> listening s' = true).
Proof.
  unfold step. intros Hstep Ha Hpc Hsig Hserved.
  destruct (negb (alive s)); [discriminate |].
  destruct a; try contradiction; rewrite ?Hpc, ?Hsig in Hstep;
    repeat match type of Hstep with
           | (if ?c then _ else _) = _ => destruct c eqn:?
           | match accepted s with _ => _ end = _ => destruct (accepted s)
           end;
    try discriminate; injection Hstep as <-; simpl;
    repeat split; auto; try discriminate; try congruence.
Qed.

(** X14. Without a signal the server never leaves [<-shutdown]: whatever a
    schedule without one holds (the start of the listener or its failure,
    requests, openings, finished streams), the main goroutine still waits,
    and [server.Close] has not run: if the listener was opened, it is still
    open. *)
Theorem no_shutdown_without_a_signal sched : forall s,
  run sched boot = Some s ->
  Forall (fun a => a <> Signal) sched ->
  pc s = AwaitSignal /\ (In Listen sched -> listening s = true).
Proof.
  assert (forall s0 s,
            run sched s0 = Some s ->
            Forall (fun a => a <> Signal) sched ->
            pc s0 = AwaitSignal -> signalled s0 = false ->
            (listening s0 = true -> served s0 = true) ->
            pc s = AwaitSignal /\
            (listening s0 = true \/ In Listen sched -> listening s = true)) as Hgen.
  { induction sched as [|a sched IH]; intros s0 s Hrun Hno Hpc Hsig Hserved.
    - injection Hrun as <-. split; [exact Hpc |]. intros [Hl | []]. exact Hl.
    - simpl in Hrun. destruct (step a s0) as [s1 |] eqn:Hstep; [| discriminate].
      inversion Hno as [|? ? Ha Hno']; subst.
      destruct (step_without_signal a s0 s1 Hstep Ha Hpc Hsig Hserved)
        as (Hpc1 & Hsig1 & Hserved1 & Hkeep & Hlisten).
      destruct (IH s1 s Hrun Hno' Hpc1 Hsig1 Hserved1) as [Hpcs Hls].
      split; [exact Hpcs |]. intros [Hl | [-> | Hin]]; apply Hls; auto. }
  intros s Hrun Hno.
  destruct (Hgen boot s Hrun Hno eq_refl eq_refl) as [Hpc Hl]; [discriminate |].
  split; [exact Hpc | auto].
Qed.

Lemma no_shutdown_without_a_signal_witness :
  pc (mkServer AwaitSignal true true false 0 1 ∅ ∅ {[0]} ∅ 0) = AwaitSignal /\
  listening (mkServer AwaitSignal true true false 0 1 ∅ ∅ {[0]} ∅ 0) = true.
Proof.
  destruct (no_shutdown_without_a_signal [Listen; Accept; Offer; Open 0; Finish 0]
              (mkServer AwaitSignal true true false 0 1 ∅ ∅ {[0]} ∅ 0)) as [Hpc Hl].
  - vm_compute. reflexivity.
  - repeat constructor; discriminate.
  - split; [exact Hpc |]. apply Hl. left. reflexivity.
Defined.

(** X15. While the process lives, the wait group counts exactly the
    goroutines inside streamFile, so [wg.Done] never runs on a counter of
    zero; and once no goroutine is streaming, a signal takes the waiting
    server down through [server.Close], [wg.Wait] and the exit, cutting off
    nothing. *)
Theorem wait_group_counts_the_streaming_goroutines sched s :
  run sched boot = Some s ->
  alive s = true ->
  wg s = size (streaming s) /\
  (forall i s', step (Finish i) s = Some s' -> 0 < wg s) /\
  (streaming s = ∅ -> pc s = AwaitSignal ->
   exists s', run [Signal; Receive; CloseServer; Wait; Exit] s = Some s' /\
              pc s' = Exited /\ finished s' = finished s /\ killed s' = ∅).
Proof.
  intros Hrun Halive.
  pose proof (Inv_run sched boot s Inv_boot Hrun) as Hinv.
  pose proof (inv_wg s Hinv Halive) as Hwg.
  pose proof (inv_alive_killed s Hinv Halive) as Hk.
  split; [exact Hwg |]. split.
  - intros i s' Hstep. unfold step in Hstep. rewrite Halive in Hstep. simpl in Hstep.
    destruct (decide (i ∈ streaming s)) as [Hi |]; [| discriminate].
    rewrite Hwg. destruct (size (streaming s)) eqn:Hsz; [| lia].
    apply size_empty_inv in Hsz. apply leibniz_equiv in Hsz.
    rewrite Hsz in Hi. set_solver.
  - intros Hs Hpc. rewrite Hs, size_empty in Hwg.
    unfold run, step, alive. simpl. rewrite Hpc. simpl. rewrite Hwg. simpl.
    eexists. split; [reflexivity |]. simpl.
    rewrite Hs, Hk. split; [reflexivity |]. split; [reflexivity |]. set_solver.
Qed.

Lemma wait_group_counts_the_streaming_goroutines_witness :
  wg (mkServer AwaitSignal true true false 0 1 ∅ ∅ {[0]} ∅ 0)
  = size (streaming (mkServer AwaitSignal true true false 0 1 ∅ ∅ {[0]} ∅ 0)) /\
  exists s', run [Signal; Receive; CloseServer; Wait; Exit]
               (mkServer AwaitSignal true true false 0 1 ∅ ∅ {[0]} ∅ 0) = Some s' /\
             pc s' = Exited /\
             finished s'
             = finished (mkServer AwaitSignal true true false 0 1 ∅ ∅ {[0]} ∅ 0) /\
             killed s' = ∅.
Proof.
  destruct (wait_group_counts_the_streaming_goroutines
              [Listen; Accept; Offer; Open 0; Finish 0]
              (mkServer AwaitSignal true true false 0 1 ∅ ∅ {[0]} ∅ 0))
    as (Hwg & _ & Hdown).
  - vm_compute. reflexivity.
  - reflexivity.
  - split; [exact Hwg | apply Hdown; reflexivity].
Defined.

Lemma step_before_wait a s s' :
  step a s = Some s' ->
  before_wait (pc s) = true ->
  before_wait (pc s') = true \/ (a = Wait /\ pc s = WaitingGroup).
Proof.
  unfold step. destruct (alive s); [simpl | discriminate].
  destruct a;
    repeat match goal with
           | |- (if ?c then _ else _) = _ -> _ => destruct c
           | |- match accepted s with _ => _ end = _ -> _ => destruct (accepted s)
           | |- match pc s with _ => _ end = _ -> _ => destruct (pc s)
           end; try discriminate; intros [= <-]; auto.
Qed.

Lemma find_wait sched : forall s0 s,
  run sched s0 = Some s ->
  before_wait (pc s0) = true ->
  before_wait (pc s) = false ->
  exists before after s1 s2,
    sched = before ++ Wait :: after /\
    run before s0 = Some s1 /\ pc s1 = WaitingGroup /\
    step Wait s1 = Some s2 /\ run after s2 = Some s.
Proof.
  induction sched as [|a sched IH]; intros s0 s; simpl.
  - intros [= <-] H1 H2. congruence.
  - destruct (step a s0) as [s'|] eqn:E; [| discriminate].
    intros Hrun Hb Ha.
    destruct (step_before_wait _ _ _ E Hb) as [Hb' | [-> Hpc]].
    + destruct (IH _ _ Hrun Hb' Ha) as (before & after & s1 & s2 & -> & Hr1 & Hp & Hw & Hr2).
      exists (a :: before), after, s1, s2. simpl. rewrite E. auto.
    + exists [], sched, s0, s'. auto.
Qed.

Lemma step_finished a s s' : step a s = Some s' -> finished s ⊆ finished s'.
Proof.
  unfold step. destruct (alive s); [simpl | discriminate].
  destruct a;
    repeat match goal with
           | |- (if ?c then _ else _) = _ -> _ => destruct c
           | |- match accepted s with _ => _ end = _ -> _ => destruct (accepted s)
           | |- match pc s with _ => _ end = _ -> _ => destruct (pc s)
           end; try discriminate; intros [= <-]; simpl; set_solver.
Qed.

Lemma run_finished sched : forall s s', run sched s = Some s' -> finished s ⊆ finished s'.
Proof.
  induction sched as [|a sched IH]; intros s s'; simpl.
  - now intros [= <-].
  - destruct (step a s) as [s1|] eqn:E; [| discriminate].
    intros Hr. etransitivity; [eapply step_finished; eauto | eauto].
Qed.

(** Once the server is closed the listener stays closed: no request is
    taken any more. *)
Lemma step_closed a s s' :
  step a s = Some s' -> listening s = false -> served s = true ->
  listening s' = false /\ served s' = true /\ a <> Accept.
Proof.
  unfold step. destruct (alive s); [simpl | discriminate].
  intros Hs Hl Hserved. rewrite ?Hl, ?Hserved in Hs.
  destruct a;
    repeat match type of Hs with
           | (if ?c then _ else _) = _ => destruct c
           | match accepted s with _ => _ end = _ => destruct (accepted s)
           | match pc s with _ => _ end = _ => destruct (pc s)
           end; try discriminate; injection Hs as <-; simpl; auto.
Qed.

Lemma run_closed sched : forall s s',
  run sched s = Some s' -> listening s = false -> served s = true ->
  listening s' = false /\ Forall (fun a => a <> Accept) sched.
Proof.
  induction sched as [|a sched IH]; intros s s'; simpl.
  - intros [= <-]. auto.
  - destruct (step a s) as [s1|] eqn:E; [| discriminate].
    intros Hr Hl Hserved. destruct (step_closed _ _ _ E Hl Hserved) as (Hl1 & Hs1 & Ha).
    destruct (IH _ _ Hr Hl1 Hs1) as [Hl2 Hno]. split; [assumption | now constructor].
Qed.

(** X19. Whenever the process has exited, the schedule passed the point
    where [wg.Wait] returned: the listener was closed by then, the wait group
    was empty and no goroutine was streaming; every session registered with
    the wait group up to that point has finished by itself and none of them
    was cut off by the exit; and no request was taken after it. *)
Theorem shutdown_drains_what_was_registered sched s :
  run sched boot = Some s ->
  pc s = Exited ->
  exists before after s1,
    sched = before ++ Wait :: after /\
    run before boot = Some s1 /\
    pc s1 = WaitingGroup /\ listening s1 = false /\
    wg s1 = 0 /\ streaming s1 = ∅ /\
    registered s1 ⊆ finished s /\
    registered s1 ## killed s /\
    Forall (fun a => a <> Accept) after.
Proof.
  intros Hrun Hpc.
  destruct (find_wait sched boot s Hrun eq_refl) as
    (before & after & s1 & s2 & -> & Hr1 & Hp1 & Hw & Hr2); [now rewrite Hpc |].
  pose proof (Inv_run _ _ _ Inv_boot Hr1) as I1.
  pose proof (Inv_run _ _ _ Inv_boot Hrun) as I.
  assert (alive s1 = true) as Ha1 by (unfold alive; now rewrite Hp1).
  assert (listening s1 = false /\ served s1 = true) as [Hl1 Hs1].
  { pose proof (inv_closed _ I1) as Hc. now rewrite Hp1 in Hc. }
  assert (wg s1 = 0 /\ finished s2 = finished s1 /\ listening s2 = false /\ served s2 = true)
    as (Hwg & Hf2 & Hl2 & Hs2).
  { unfold step in Hw. rewrite Ha1, Hp1 in Hw. simpl in Hw.
    destruct (Nat.eqb_spec (wg s1) 0); [| discriminate]. injection Hw as <-. auto. }
  assert (streaming s1 = ∅) as Hstr.
  { apply leibniz_equiv, size_empty_inv. rewrite <- (inv_wg _ I1 Ha1). exact Hwg. }
  assert (registered s1 = finished s1) as Hreg.
  { unfold registered. rewrite Hstr, (inv_alive_killed _ I1 Ha1). set_solver. }
  assert (finished s1 ⊆ finished s) as Hfin.
  { rewrite <- Hf2. eapply run_finished; eauto. }
  destruct (run_closed _ _ _ Hr2 Hl2 Hs2) as [_ Hno].
  exists before, after, s1. repeat split; auto.
  - now rewrite Hreg.
  - rewrite Hreg. pose proof (inv_fin_killed _ I). set_solver.
Qed.

Lemma shutdown_drains_what_was_registered_witness :
  exists before after s1,
    [Listen; Accept; Offer; Open 0; Signal; Receive; CloseServer; Finish 0; Wait; Exit]
    = before ++ Wait :: after /\
    run before boot = Some s1 /\
    pc s1 = WaitingGroup /\ listening s1 = false /\
    wg s1 = 0 /\ streaming s1 = ∅ /\
    registered s1 ⊆ finished (mkServer Exited false true false 0 1 ∅ ∅ {[0]} ∅ 0) /\
    registered s1 ## killed (mkServer Exited false true false 0 1 ∅ ∅ {[0]} ∅ 0) /\
    Forall (fun a => a <> Accept) after.
Proof.
  apply (shutdown_drains_what_was_registered
           [Listen; Accept; Offer; Open 0; Signal; Receive; CloseServer; Finish 0; Wait; Exit]
           (mkServer Exited false true false 0 1 ∅ ∅ {[0]} ∅ 0)).
  - vm_compute. reflexivity.
  - reflexivity.
Defined.

(** ** The receiving goroutine of runClient *)

Lemma File_WriteString_kept env k name data w :
  fst (File_WriteString env k name data w) = append_file name (kept env k data) w.
Proof.
  unfold File_WriteString, kept. destruct (write_fault env k) as [[n e] |]; reflexivity.
Qed.

Lemma client_receive_file env name lines : forall lineCount w tr content,
  file_content w name = Some content ->
  fst (fst (client_receive env (Some name) lines lineCount w tr))
  = lineCount + length lines /\
  file_content (snd (fst (client_receive env (Some name) lines lineCount w tr))) name
  = Some (content +:+ kept_text env lineCount lines) /\
  snd (client_receive env (Some name) lines lineCount w tr)
  = tr ++ line_events whole false lineCount lines.
Proof.
  induction lines as [|line lines IH]; intros c w tr content Hc;
    cbn [client_receive kept_text line_events].
  - simpl. rewrite append_nil_r, app_nil_r. split; [lia | auto].
  - rewrite File_WriteString_kept.
    destruct (IH (S c) (append_file name (kept env (S c) (line +:+ newline)) w)
                (tr ++ [Logged DEBUG (ReceivedLine (S c) line)])
                (content +:+ kept env (S c) (line +:+ newline))) as (Hn & Hf & Ht).
    { now apply file_content_append. }
    rewrite Hn, Hf, Ht, append_assoc, <- app_assoc. simpl. split; [lia | auto].
Qed.

(** X16. runClient drops the result of [fmt.Fprintln]: when writes to the
    output file fail, its goroutine still goes on to the end of the channel
    and counts every line delivered; the file holds what each write left of
    its line, which is every line when no write fails. To the two streams it
    writes its records only, one for the sink, one for every line delivered,
    whether its write failed or not, and one for the count. *)
Theorem runClient_goes_on_after_a_failed_write env output lines w fs' :
  output <> EmptyString ->
  os_Create (w_fs w) output = inr fs' ->
  exists w',
    runClient_receiving env output lines w
    = inr (length lines, w',
           Logged INFO (WritingOutputToFile output)
           :: line_events whole false 0 lines
           ++ [Logged INFO (ReceivedLines (length lines) (since env (S (length lines))))]) /\
    file_content w' output = Some (kept_text env 0 lines) /\
    (no_write_fault env -> kept_text env 0 lines = lines_text lines).
Proof.
  intros Hout Hc. unfold runClient_receiving.
  destruct (String.eqb_spec output EmptyString) as [-> | _]; [contradiction |].
  rewrite Hc. apply os_Create_inr in Hc as ->.
  destruct (client_receive_file env output lines 0
              (mkWorld (<[output := RegularFile true EmptyString]> (w_fs w)) (w_stdout w))
              [Logged INFO (WritingOutputToFile output)]
              EmptyString (file_content_created _ _ _)) as (Hn & Hf & Ht).
  destruct (client_receive _ _ _ _ _ _) as [[n w'] tr] eqn:E. simpl in *.
  exists w'. subst n tr. split; [reflexivity |]. split; [exact Hf |].
  intros Hnf. now apply kept_text_no_fault.
Qed.

Lemma runClient_goes_on_after_a_failed_write_witness :
  exists w',
    runClient_receiving full_disk "out.txt" ["Line 1"; "Line 2"] (mkWorld ∅ "")
    = inr (length ["Line 1"; "Line 2"], w',
           Logged INFO (WritingOutputToFile "out.txt")
           :: line_events whole false 0 ["Line 1"; "Line 2"]
           ++ [Logged INFO (ReceivedLines (length ["Line 1"; "Line 2"])
                              (since full_disk (S (length ["Line 1"; "Line 2"]))))]) /\
    file_content w' "out.txt" = Some (kept_text full_disk 0 ["Line 1"; "Line 2"]) /\
    kept_text full_disk 0 ["Line 1"; "Line 2"] = "Line 2" +:+ newline.
Proof.
  destruct (runClient_goes_on_after_a_failed_write full_disk "out.txt" ["Line 1"; "Line 2"]
              (mkWorld ∅ "") (<["out.txt" := RegularFile true ""]> ∅))
    as (w' & Hrun & Hfile & _).
  - discriminate.
  - reflexivity.
  - exists w'. split; [exact Hrun |]. split; [exact Hfile |]. reflexivity.
Defined.

Lemma client_receive_process_loop env outputFile lines :
  outputFile = None \/ no_write_fault env ->
  forall lineCount n w tr,
  process_loop env outputFile (map RecvLine lines ++ [LineChanClosed]) lineCount n w tr
  = mkProcessRun
      (Done (fst (fst (client_receive env outputFile lines lineCount w tr)))
            (since env (S (n + length lines))) None)
      (snd (fst (client_receive env outputFile lines lineCount w tr)))
      (snd (client_receive env outputFile lines lineCount w tr)
       ++ [Logged INFO
             (ReceivedLines (fst (fst (client_receive env outputFile lines lineCount w tr)))
                (since env (S (n + length lines))))]).
Proof.
  intros Hsink. induction lines as [|line lines IH]; intros c n w tr.
  - simpl. now rewrite Nat.add_0_r.
  - cbn [map app process_loop client_receive length]. destruct outputFile as [name |].
    + destruct Hsink as [Hs | Hnf]; [discriminate |].
      unfold File_WriteString. rewrite Hnf. cbn [fst].
      rewrite IH. now rewrite Nat.add_succ_r.
    + rewrite IH. now rewrite Nat.add_succ_r.
Qed.

Lemma client_receive_count env outputFile lines : forall lineCount w tr,
  fst (fst (client_receive env outputFile lines lineCount w tr))
  = lineCount + length lines.
Proof.
  induction lines as [|line lines IH]; intros c w tr; cbn [client_receive].
  - simpl. lia.
  - destruct outputFile; rewrite IH; simpl; lia.
Qed.

(** X17. When no write fails (or the sink is standard output), the sink of
    runClient and its receiving goroutine do what ProcessLines does on a
    channel that delivers the same lines and is closed then: the same count,
    the same world, the same writes to the two streams in the same order,
    and the same failure when the output file cannot be created. *)
Theorem runClient_receives_like_ProcessLines env output lines w :
  output = EmptyString \/ no_write_fault env ->
  match runClient_receiving env output lines w with
  | inr (lineCount, w', tr) =>
      ProcessLines env (mkChannelLineReceiver (map RecvLine lines ++ [LineChanClosed]))
        output w
      = mkProcessRun (Done lineCount (since env (S (length lines))) None) w' tr /\
      lineCount = length lines
  | inl (err, tr) =>
      ProcessLines env (mkChannelLineReceiver (map RecvLine lines ++ [LineChanClosed]))
        output w
      = mkProcessRun (Done 0 0 (Some err)) w tr
  end.
Proof.
  intros Hsink. unfold runClient_receiving, ProcessLines.
  unfold ReceiveLines, channelLineReceiver_LineReceiver. cbn [recv_cases].
  destruct (String.eqb_spec output EmptyString) as [-> | Hne].
  - rewrite (client_receive_process_loop env None lines (or_introl eq_refl) 0 0 w).
    pose proof (client_receive_count env None lines 0 w
                  [Logged INFO WritingOutputToStdout]) as Hn.
    destruct (client_receive _ _ _ _ _ _) as [[n w'] tr]. simpl in *. now subst n.
  - destruct Hsink as [-> | Hnf]; [contradiction |].
    destruct (os_Create (w_fs w) output) as [err | fs']; [reflexivity |].
    rewrite (client_receive_process_loop env (Some output) lines (or_intror Hnf) 0 0
               (mkWorld fs' (w_stdout w))).
    pose proof (client_receive_count env (Some output) lines 0 (mkWorld fs' (w_stdout w))
                  [Logged INFO (WritingOutputToFile output)]) as Hn.
    destruct (client_receive _ _ _ _ _ _) as [[n w'] tr]. simpl in *. now subst n.
Qed.

Lemma runClient_receives_like_ProcessLines_witness :
  ProcessLines steady
    (mkChannelLineReceiver (map RecvLine ["Line 1"; "Line 2"] ++ [LineChanClosed]))
    "" (mkWorld ∅ "")
  = mkProcessRun (Done 2 (since steady 3) None)
      (mkWorld ∅ ("Line 1" +:+ newline +:+ "Line 2" +:+ newline))
      [Logged INFO WritingOutputToStdout;
       Printed ("Line 1" +:+ newline); Logged DEBUG (ReceivedLine 1 "Line 1");
       Printed ("Line 2" +:+ newline); Logged DEBUG (ReceivedLine 2 "Line 2");
       Logged INFO (ReceivedLines 2 (since steady 3))].
Proof.
  pose proof (runClient_receives_like_ProcessLines steady "" ["Line 1"; "Line 2"]
                (mkWorld ∅ "") (or_introl eq_refl)) as Hsame.
  destruct Hsame as [Hsame _]. exact Hsame.
Defined.

(** ** The logger *)

Module loggerFacts.
Import logger.

Lemma do_call_as_Init c st :
  as_Init st ->
  as_Init (do_call c st) /\
  stdout (do_call c st) = stdout st +:+ stdout_lines [c] /\
  stderr (do_call c st) = stderr st +:+ stderr_lines [c].
Proof.
  destruct st as [i e d out err]. unfold as_Init. cbn [infoLogger errorLogger debugLogger].
  intros (Hi & He & Hd).
  destruct c as [stamp msg | stamp msg | stamp msg |];
    cbn [do_call stdout_lines stderr_lines].
  - unfold Info. destruct Hi as [-> | ->]; cbn; rewrite ?append_nil_r; auto.
  - unfold Error. destruct He as [-> | ->]; cbn; rewrite ?append_nil_r; auto.
  - unfold Debug. destruct Hd as [-> | ->]; cbn; rewrite ?append_nil_r; auto.
  - cbn. rewrite ?append_nil_r. auto.
Qed.

End loggerFacts.

(** X18. Whether or not [Init] was called before, a sequence of calls of
    [Info], [Error], [Debug] and [Init] writes one line per message: those of
    [Info] and [Debug] to standard output, those of [Error] to standard
    error, in the order of the calls, each behind the prefix of its level. *)
Theorem logger_routes_by_level calls : forall st,
  logger.as_Init st ->
  logger.as_Init (logger.do_calls calls st) /\
  logger.stdout (logger.do_calls calls st)
  = logger.stdout st +:+ logger.stdout_lines calls /\
  logger.stderr (logger.do_calls calls st)
  = logger.stderr st +:+ logger.stderr_lines calls.
Proof.
  induction calls as [|c calls IH]; intros st Hst.
  - simpl. now rewrite !append_nil_r.
  - destruct (loggerFacts.do_call_as_Init c st Hst) as (Hst' & Hout & Herr).
    destruct (IH _ Hst') as (Hinit & Ho & He).
    unfold logger.do_calls in *. cbn [fold_left].
    split; [exact Hinit |]. rewrite Ho, He, Hout, Herr, !append_assoc.
    split; f_equal.
    + destruct c; cbn [logger.stdout_lines]; now rewrite ?append_nil_r, ?append_nil_l.
    + destruct c; cbn [logger.stderr_lines]; now rewrite ?append_nil_r, ?append_nil_l.
Qed.

Lemma logger_routes_by_level_witness :
  logger.stdout (logger.do_calls
                   [logger.CallInfo "t " "started"; logger.CallError "t " "failed"]
                   (logger.mkState None None None "" ""))
  = "[INFO] t started" +:+ newline /\
  logger.stderr (logger.do_calls
                   [logger.CallInfo "t " "started"; logger.CallError "t " "failed"]
                   (logger.mkState None None None "" ""))
  = "[ERROR] t failed" +:+ newline.
Proof.
  destruct (logger_routes_by_level
              [logger.CallInfo "t " "started"; logger.CallError "t " "failed"]
              (logger.mkState None None None "" "")) as (_ & Hout & Herr).
  - unfold logger.as_Init. simpl. auto.
  - split; [exact Hout | exact Herr].
Defined.
